(** * badgerdoc table extractor: the page pipeline

    A shallow embedding of [table_extractor/pipeline/pipeline.py] and the
    properties of its fusion and reconstruction engine.

    Conventions of the embedding:
    - Python [int] is [Z]; [len] is a [nat] injected into [Z] where it meets
      an [int].
    - Python [float] values that arise here are quotients and products of
      integers ([count / all_chars_count], [score * 0.5], [0.75 * len(series)],
      [0.2 * len(cells)]).  They are modelled as exact rationals [Q].  The
      products by 0.5 and 0.75 are exact in binary floating point; a product
      [0.2 * n] is only compared with an integer and rounds to that integer
      exactly when [n] is five times it; and two digit densities of lines with
      fewer than [2^26] characters compare as their exact quotients do.  The
      scale [img.shape[0] / poppler_page.bbox.height] is only handed to the
      converter of the text layer, a parameter of the embedding.
    - A Python exception is a [Raise] result; a loop is a [fold_left] or a
      structural [Fixpoint] over the list it iterates.
    - A Python [str] is a [string], one [ascii] per character.
    - An object that is [None] or a value is an [option]; every instance of a
      plain record class is truthy. *)

From Stdlib Require Import ZArith QArith List String Ascii Bool Lia Arith.
From Stdlib Require Import Sorted Permutation.
Import ListNotations.

Open Scope string_scope.
Open Scope list_scope.
Open Scope Z_scope.

(** ** Python results *)

Inductive exn : Type :=
| IndexError
| ZeroDivisionError.

Inductive res (A : Type) : Type :=
| Ok (a : A)
| Raise (e : exn).

Arguments Ok {A} a.
Arguments Raise {A} e.

Definition bind {A B : Type} (m : res A) (k : A -> res B) : res B :=
  match m with
  | Ok a => k a
  | Raise e => Raise e
  end.

Notation "x <- m ;; k" := (bind m (fun x => k))
  (at level 61, m at next level, right associativity).

(** [for x in xs: acc = body(acc, x)] where the body may raise. *)
Fixpoint for_each {A S : Type} (body : S -> A -> res S) (xs : list A) (s : S)
  : res S :=
  match xs with
  | [] => Ok s
  | x :: rest => s' <- body s x ;; for_each body rest s'
  end.

(** [xs[i]] for [i >= 0]. *)
Definition getitem {A : Type} (xs : list A) (i : nat) : res A :=
  match nth_error xs i with
  | Some x => Ok x
  | None => Raise IndexError
  end.

(** [xs[-1]]. *)
Definition getitem_last {A : Type} (xs : list A) : res A :=
  match rev xs with
  | x :: _ => Ok x
  | [] => Raise IndexError
  end.

(** [xs[1:-1]]: a slice never raises. *)
Definition slice_1_m1 {A : Type} (xs : list A) : list A :=
  removelast (tl xs).

(** [a / b] on integers (true division). *)
Definition truediv (a b : Z) : res Q :=
  if b =? 0 then Raise ZeroDivisionError
  else Ok (inject_Z a / inject_Z b)%Q.

(** [x > y] on floats. *)
Definition Qgtb (x y : Q) : bool := negb (Qle_bool x y).

(** [x >= y] on floats. *)
Definition Qgeb (x y : Q) : bool := Qle_bool y x.

(** [sorted(xs, key=...)]: Python's sort is stable; [leb] compares the keys. *)
Fixpoint insert_sorted {A : Type} (leb : A -> A -> bool) (x : A) (xs : list A)
  : list A :=
  match xs with
  | [] => [x]
  | y :: rest => if leb x y then x :: y :: rest
                 else y :: insert_sorted leb x rest
  end.

Definition sorted {A : Type} (leb : A -> A -> bool) (xs : list A) : list A :=
  fold_right (insert_sorted leb) [] xs.

(** [sorted(list(set(xs)))] on integers: the set drops the duplicates and the
    sort fixes the order, whatever order the set iterates in. *)
Definition sorted_set (xs : list Z) : list Z :=
  sorted Z.leb (nodup Z.eq_dec xs).

(** ** Data model

    The classes of [table_extractor/model/table.py] and
    [table_extractor/bordered_service/models.py] that the pipeline imports. *)

(** Modelled from the spec: Box, [(x1,y1,x2,y2)] in pixel units with derived
    width and height; the field names are the ones the pipeline reads. *)
Record BorderBox : Type := mkBorderBox {
  top_left_x : Z;
  top_left_y : Z;
  bottom_right_x : Z;
  bottom_right_y : Z
}.

Definition width (b : BorderBox) : Z := bottom_right_x b - top_left_x b.
Definition height (b : BorderBox) : Z := bottom_right_y b - top_left_y b.

(** [bbox.box]: the pipeline unpacks it as [_, y, _, y2]. *)
Definition box (b : BorderBox) : Z * Z * Z * Z :=
  (top_left_x b, top_left_y b, bottom_right_x b, bottom_right_y b).

(** The two geometry primitives of [BorderBox] that the pipeline calls.
    [box_is_inside_another inner outer threshold] is
    [inner.box_is_inside_another(outer, threshold=...)]; [None] is the
    method's default threshold. *)
Class BoxOps : Type := {
  box_is_inside_another : BorderBox -> BorderBox -> option Q -> bool;
  merge : BorderBox -> BorderBox -> BorderBox
}.

(** Modelled from the spec: [merge] returns the box whose corners are the
    element-wise min/max of the two boxes' corners. *)
Definition spec_merge (a b : BorderBox) : BorderBox :=
  {| top_left_x := Z.min (top_left_x a) (top_left_x b);
     top_left_y := Z.min (top_left_y a) (top_left_y b);
     bottom_right_x := Z.max (bottom_right_x a) (bottom_right_x b);
     bottom_right_y := Z.max (bottom_right_y a) (bottom_right_y b) |}.

(** Modelled from the spec: [contains(inner, outer, tolerance)] is true if
    [inner]'s corners lie within [outer]'s corners expanded outward by the
    tolerance, a fraction of the relevant dimension of [outer]; tolerance 0 is
    exact containment and [contains(x, x, 0)] holds.  The spec gives no default
    tolerance; it is read as 0. *)
Definition spec_box_is_inside_another (inner outer : BorderBox)
  (threshold : option Q) : bool :=
  let t := match threshold with Some t => t | None => 0%Q end in
  let slack_x := (t * inject_Z (width outer))%Q in
  let slack_y := (t * inject_Z (height outer))%Q in
  Qle_bool (inject_Z (top_left_x outer) - slack_x) (inject_Z (top_left_x inner))
  && Qle_bool (inject_Z (top_left_y outer) - slack_y) (inject_Z (top_left_y inner))
  && Qle_bool (inject_Z (bottom_right_x inner)) (inject_Z (bottom_right_x outer) + slack_x)
  && Qle_bool (inject_Z (bottom_right_y inner)) (inject_Z (bottom_right_y outer) + slack_y).

Definition spec_box_ops : BoxOps :=
  {| box_is_inside_another := spec_box_is_inside_another;
     merge := spec_merge |}.

(** Modelled from the spec: TextField, a box and the recognised text. *)
Record TextField : Type := mkTextField {
  bbox : BorderBox;
  text : string
}.

(** Modelled from the spec: Cell, a box and the text fragments that belong
    to it. *)
Record Cell : Type := mkCell {
  cell_box : BorderBox;
  text_boxes : list TextField
}.

(** Modelled from the spec: LinkedCell ([CellLinked]), a cell with its grid
    position. *)
Record CellLinked : Type := mkCellLinked {
  cell : Cell;
  row : Z;
  col : Z;
  row_span : Z;
  col_span : Z
}.

(** Modelled from the spec: TableRegion ([InferenceTable]), a box, a label
    and the raw cell proposals ([tags]) of the learned detector. *)
Record InferenceTable : Type := mkInferenceTable {
  inf_bbox : BorderBox;
  tags : list Cell;
  label : string
}.

(** Modelled from the spec: a row or column band of a BorderedRegion, a box
    with its cell proposals ([objs]). *)
Record Band : Type := mkBand {
  band_bbox : BorderBox;
  objs : list Cell
}.

(** Modelled from the spec: BorderedRegion ([Table]), a box with ordered row
    bands and column bands; the semi-bordered builder returns one too. *)
Record Table : Type := mkTable {
  tbl_bbox : BorderBox;
  tbl_rows : list Band;
  tbl_cols : list Band
}.

(** Modelled from the spec: StructuredTable, a box, the flat cell list, and
    the ordered rows and columns, which hold the same cell objects as the
    flat list. *)
Record StructuredTable : Type := mkStructuredTable {
  st_bbox : BorderBox;
  cells : list CellLinked;
  rows : list (list CellLinked);
  cols : list (list CellLinked)
}.

(** Modelled from the spec: HeaderedTable ([StructuredTableHeadered]), the
    box and cells of a structured table with its header rows. *)
Record StructuredTableHeadered : Type := mkStructuredTableHeadered {
  sth_bbox : BorderBox;
  sth_cells : list CellLinked;
  header : list (list CellLinked)
}.

(** Modelled from the spec: [StructuredTableHeadered.from_structured_and_rows]
    keeps the table's box and cells and takes the given rows as the header. *)
Definition from_structured_and_rows (table : StructuredTable)
  (header_rows : list (list CellLinked)) : StructuredTableHeadered :=
  {| sth_bbox := st_bbox table;
     sth_cells := cells table;
     header := header_rows |}.

(** ** Digit density and the digit-density header ([cnt_ciphers],
    [actualize_header]) *)

(** [char in '0123456789']. *)
Definition is_cipher (char : ascii) : bool :=
  existsb (Ascii.eqb char) (list_ascii_of_string "0123456789").

(** ["".join([tb.text for tb in cell.text_boxes])]. *)
Definition sentence_of (c : Cell) : string :=
  String.concat "" (map text (text_boxes c)).

(** The body of [for cell in cells]: the state is [(count, all_chars_count)]. *)
Definition cnt_ciphers_cell (st : Z * Z) (c : Cell) : Z * Z :=
  let '(count, all_chars_count) := st in
  let sentence := sentence_of c in
  let count :=
    fold_left (fun count char => if is_cipher char then count + 1 else count)
              (list_ascii_of_string sentence) count in
  (count, all_chars_count + Z.of_nat (String.length sentence)).

(** The two counters after the loop of [cnt_ciphers]. *)
Definition cnt_ciphers_counts (cs : list Cell) : Z * Z :=
  fold_left cnt_ciphers_cell cs (0, 0).

(** [return count / all_chars_count if all_chars_count else 0.] *)
Definition cnt_ciphers (cs : list Cell) : res Q :=
  let '(count, all_chars_count) := cnt_ciphers_counts cs in
  if negb (all_chars_count =? 0) then truediv count all_chars_count
  else Ok 0%Q.

(** The quantities the specification names: the concatenated text of a cell
    list, and the number of digit characters of a text. *)
Definition all_text (cs : list Cell) : string :=
  String.concat "" (map sentence_of cs).

Definition digits_in (s : string) : Z :=
  Z.of_nat (List.length (filter is_cipher (list_ascii_of_string s))).

(** The digit density of the specification: digit characters over all
    characters of the concatenated text, 0 when there is no character. *)
Definition density (cs : list Cell) : Q :=
  if (String.length (all_text cs) =? 0)%nat then 0%Q
  else (inject_Z (digits_in (all_text cs))
        / inject_Z (Z.of_nat (String.length (all_text cs))))%Q.

(** The longest prefix whose elements satisfy [f]. *)
Fixpoint take_while {A : Type} (f : A -> bool) (xs : list A) : list A :=
  match xs with
  | [] => []
  | x :: rest => if f x then x :: take_while f rest else []
  end.

(** The loop of [actualize_header] over [table_rows[1:]]; [current_ciphers]
    is read in every iteration and assigned in none. *)
Fixpoint header_scan (current_ciphers : Q) (rest : list (list CellLinked))
  (header_candidates : list (list CellLinked))
  : res (list (list CellLinked)) :=
  match rest with
  | [] => Ok header_candidates
  | r :: rest' =>
      count <- cnt_ciphers (map cell r) ;;
      if Qgtb count current_ciphers then Ok header_candidates
      else header_scan current_ciphers rest' (header_candidates ++ [r])
  end.

Definition actualize_header (table : StructuredTable)
  : res StructuredTableHeadered :=
  let table_rows := rows table in
  row0 <- getitem table_rows 0 ;;
  count_ciphers <- cnt_ciphers (map cell row0) ;;
  let current_ciphers := count_ciphers in
  header_candidates <- header_scan current_ciphers (tl table_rows) [row0] ;;
  if (List.length header_candidates <? List.length table_rows)%nat
  then Ok (from_structured_and_rows table header_candidates)
  else Ok {| sth_bbox := st_bbox table;
             sth_cells := cells table;
             header := [] |}.

(** The scan as the specification words it: a row joins the header while its
    density is at most the density of the previous accepted row. *)
Fixpoint header_scan_spec (previous : Q) (rest : list (list CellLinked))
  (header_candidates : list (list CellLinked))
  : res (list (list CellLinked)) :=
  match rest with
  | [] => Ok header_candidates
  | r :: rest' =>
      count <- cnt_ciphers (map cell r) ;;
      if Qgtb count previous then Ok header_candidates
      else header_scan_spec count rest' (header_candidates ++ [r])
  end.

Definition actualize_header_spec (table : StructuredTable)
  : res StructuredTableHeadered :=
  let table_rows := rows table in
  row0 <- getitem table_rows 0 ;;
  density0 <- cnt_ciphers (map cell row0) ;;
  header_candidates <- header_scan_spec density0 (tl table_rows) [row0] ;;
  if (List.length header_candidates <? List.length table_rows)%nat
  then Ok (from_structured_and_rows table header_candidates)
  else Ok {| sth_bbox := st_bbox table;
             sth_cells := cells table;
             header := [] |}.

(** ** Text reconciliation ([merge_text_fields], [merge_closest_text_fields]) *)

Section TextReconciliation.
Context `{BoxOps}.

(** The inner loop body of the first loop of [merge_text_fields]; the state
    is [(merged_t_b, merged)]. *)
Definition merge_pop_pad (pop_t_b : TextField) (st : list TextField * bool)
  (pad_t_b : TextField) : list TextField * bool :=
  let '(merged_t_b, merged) := st in
  if box_is_inside_another (bbox pop_t_b) (bbox pad_t_b) (Some 0%Q)
  then (merged_t_b ++ [{| bbox := merge (bbox pad_t_b) (bbox pop_t_b);
                          text := text pop_t_b |}], true)
  else (merged_t_b, merged).

(** The outer loop body of the first loop; the state is
    [(merged_t_b, not_matched)]. *)
Definition merge_pop (paddle_t_b : list TextField)
  (st : list TextField * list TextField) (pop_t_b : TextField)
  : list TextField * list TextField :=
  let '(merged_t_b, not_matched) := st in
  let '(merged_t_b, merged) :=
    fold_left (merge_pop_pad pop_t_b) paddle_t_b (merged_t_b, false) in
  if negb merged then (merged_t_b, not_matched ++ [pop_t_b])
  else (merged_t_b, not_matched).

(** The body of the second loop: [exists] is set when some merged field's box
    is inside the paddle field's box. *)
Definition keep_pad (merged_t_b : list TextField)
  (not_matched : list TextField) (pad_t_b : TextField) : list TextField :=
  let exists_ :=
    fold_left (fun exists_ mer_t_b =>
                 if box_is_inside_another (bbox mer_t_b) (bbox pad_t_b) (Some 0%Q)
                 then true else exists_)
              merged_t_b false in
  if negb exists_ then not_matched ++ [pad_t_b] else not_matched.

Definition merge_text_fields (paddle_t_b poppler_t_b : list TextField)
  : list TextField :=
  let '(merged_t_b, not_matched) :=
    fold_left (merge_pop paddle_t_b) poppler_t_b ([], []) in
  let not_matched := fold_left (keep_pad merged_t_b) paddle_t_b not_matched in
  merged_t_b ++ not_matched.

(** The three parts of the result, in closed form.  [inside0 a b] is
    [a.box_is_inside_another(b, threshold=0.0)]. *)
Definition inside0 (a b : TextField) : bool :=
  box_is_inside_another (bbox a) (bbox b) (Some 0%Q).

Definition merged_fields_of (paddle_t_b poppler_t_b : list TextField)
  : list TextField :=
  flat_map (fun pop_t_b =>
              map (fun pad_t_b => {| bbox := merge (bbox pad_t_b) (bbox pop_t_b);
                                     text := text pop_t_b |})
                  (filter (fun pad_t_b => inside0 pop_t_b pad_t_b) paddle_t_b))
           poppler_t_b.

Definition unmatched_from_B (paddle_t_b poppler_t_b : list TextField)
  : list TextField :=
  filter (fun pop_t_b => negb (existsb (fun pad_t_b => inside0 pop_t_b pad_t_b)
                                       paddle_t_b))
         poppler_t_b.

(** The paddle fields that contain no emitted merged field. *)
Definition unmatched_from_A (paddle_t_b merged_t_b : list TextField)
  : list TextField :=
  filter (fun pad_t_b => negb (existsb (fun mer_t_b => inside0 mer_t_b pad_t_b)
                                       merged_t_b))
         paddle_t_b.

(** The third part as the specification words it: the paddle fields that are
    not contained in any emitted merged field. *)
Definition unmatched_from_A_spec (paddle_t_b merged_t_b : list TextField)
  : list TextField :=
  filter (fun pad_t_b => negb (existsb (fun mer_t_b => inside0 pad_t_b mer_t_b)
                                       merged_t_b))
         paddle_t_b.

Definition merge_text_fields_spec (paddle_t_b poppler_t_b : list TextField)
  : list TextField :=
  merged_fields_of paddle_t_b poppler_t_b
  ++ unmatched_from_B paddle_t_b poppler_t_b
  ++ unmatched_from_A_spec paddle_t_b (merged_fields_of paddle_t_b poppler_t_b).

Definition text_to_cell (text_field : TextField) : Cell :=
  {| cell_box := {| top_left_x := top_left_x (bbox text_field);
                    top_left_y := top_left_y (bbox text_field);
                    bottom_right_x := bottom_right_x (bbox text_field);
                    bottom_right_y := bottom_right_y (bbox text_field) |};
     text_boxes := [text_field] |}.

(** The sort key [(x.bbox.top_left_y, x.bbox.top_left_x)], compared as tuples. *)
Definition top_left_leb (a b : TextField) : bool :=
  (top_left_y (bbox a) <? top_left_y (bbox b))
  || ((top_left_y (bbox a) =? top_left_y (bbox b))
      && (top_left_x (bbox a) <=? top_left_x (bbox b))).

(** [20 > text_field.bbox.top_left_x - curr_field.bbox.bottom_right_x > -20] *)
Definition close_to (curr_field text_field : TextField) : bool :=
  let gap := top_left_x (bbox text_field) - bottom_right_x (bbox curr_field) in
  (20 >? gap) && (gap >? -20).

Definition join_fields (curr_field text_field : TextField) : TextField :=
  {| bbox := merge (bbox curr_field) (bbox text_field);
     text := String.append (text curr_field)
                           (String.append " " (text text_field)) |}.

(** The loop body of [merge_closest_text_fields]; the state is
    [(curr_field, merged_fields)].  [if not curr_field] assigns the field, and
    the [if curr_field] that follows it is then true in every iteration. *)
Definition merge_closest_step (st : option TextField * list TextField)
  (text_field : TextField) : option TextField * list TextField :=
  let '(curr_field, merged_fields) := st in
  let curr_field :=
    match curr_field with
    | None => text_field
    | Some c => c
    end in
  if close_to curr_field text_field
  then (Some (join_fields curr_field text_field), merged_fields)
  else (Some text_field, merged_fields ++ [curr_field]).

Definition merge_closest_text_fields (text_fields : list TextField)
  : list TextField :=
  let '(curr_field, merged_fields) :=
    fold_left merge_closest_step (sorted top_left_leb text_fields) (None, []) in
  match curr_field with
  | Some c => merged_fields ++ [c]
  | None => merged_fields
  end.

(** The sweep as the specification words it: one accumulator, started from
    the first sorted field; the next field is merged into it when it is close,
    and otherwise the accumulator is flushed and restarted from that field. *)
Fixpoint sweep_spec (acc : TextField) (rest : list TextField)
  : list TextField :=
  match rest with
  | [] => [acc]
  | f :: rest' =>
      if close_to acc f then sweep_spec (join_fields acc f) rest'
      else acc :: sweep_spec f rest'
  end.

Definition merge_closest_text_fields_spec (text_fields : list TextField)
  : list TextField :=
  match sorted top_left_leb text_fields with
  | [] => []
  | f :: rest => sweep_spec f rest
  end.

End TextReconciliation.

(** ** Grid reconstruction: line snapping ([bordered_to_struct]) *)

(** [for band in bands: lines.extend([lo, hi])] *)
Definition band_edges (lo hi : BorderBox -> Z) (bands : list Band) : list Z :=
  flat_map (fun b => [lo (band_bbox b); hi (band_bbox b)]) bands.

(** The snapping block of [bordered_to_struct], written there once for the
    column edges and once for the row edges: sort; start the merged list with
    [lines[0]] and [lines[-1]]; for [i] in [range(len(lines[1:-1]) // 2)]
    append [(lines[2*i] + lines[2*i+1]) // 2]; [sorted(list(set(...)))]. *)
Definition snap_lines (lines : list Z) : res (list Z) :=
  let lines := sorted Z.leb lines in
  first <- getitem lines 0 ;;
  last <- getitem_last lines ;;
  lines_merged <-
    for_each (fun lines_merged i =>
                a <- getitem lines (2 * i) ;;
                b <- getitem lines (2 * i + 1) ;;
                Ok (lines_merged ++ [(a + b) / 2]))
             (seq 0 (List.length (slice_1_m1 lines) / 2))
             [first; last] ;;
  Ok (sorted_set lines_merged).

(** The snap as the specification words it: the pairs are taken from the
    interior [lines[1:-1]], at indices 1-2, 3-4, ... of the sorted list. *)
Fixpoint pair_midpoints (interior : list Z) : list Z :=
  match interior with
  | a :: b :: rest => (a + b) / 2 :: pair_midpoints rest
  | _ => []
  end.

Definition snap_lines_spec (lines : list Z) : res (list Z) :=
  let lines := sorted Z.leb lines in
  first <- getitem lines 0 ;;
  last <- getitem_last lines ;;
  Ok (sorted_set ([first; last] ++ pair_midpoints (slice_1_m1 lines))).

(** ** The collaborators of the page processor *)

(** The page image; the pipeline itself reads only its shape
    ([img.shape[0]] is the height, [img.shape[1]] the width). *)
Record Image : Type := mkImage {
  image_name : string;
  shape0 : Z;
  shape1 : Z
}.

Definition shape (img : Image) : Z * Z := (shape0 img, shape1 img).

(** [match_table_text] is called with a detector region, with a structured
    candidate and with a bordered table. *)
Inductive TableLike : Type :=
| OfInference (t : InferenceTable)
| OfStructured (t : StructuredTable)
| OfBordered (t : Table).

(** The services and helpers the pipeline imports from the rest of the
    package (detectors, text recognition, matching, grid construction, the
    header classifier), as functions of their arguments.  What a collaborator
    writes into the objects it is handed is not tracked; the diagnostic
    visualizer only draws and is left out. *)
Class Collaborators : Type := {
  inference_image : Image -> list InferenceTable;
  match_table_text : TableLike -> list TextField ->
                     list TextField * list TextField;
  extract_table_text : Image -> BorderBox -> list TextField;
  match_cells_text_fields : list Cell -> list TextField ->
                            Z * list TextField;
  semi_bordered : Image -> InferenceTable -> option Table;
  count_cells : Table -> Z;
  construct_table_from_cells : BorderBox -> list Cell -> Z * Z ->
                               option StructuredTable;
  Grid : Type;
  find_grid_table : list Z -> list Z -> Grid;
  reconstruct_table_from_grid : Grid -> list Cell -> StructuredTable;
  detect_tables_on_page : Image -> list Table;
  (** [TextExtractor.extract(x, y, w, h)]: the text of the pair it returns. *)
  te_extract : Image -> Z -> Z -> Z -> Z -> string;
  (** [TextExtractor.extract_region(x, y, w, h)]: the [(x, y, w, h)] of each
      sub-region of the triple it returns. *)
  te_extract_region : Image -> Z -> Z -> Z -> Z -> list (Z * Z * Z * Z);
  (** [extract] of the extractor opened with [seg_mode=PSM.SPARSE_TEXT]. *)
  te_extract_sparse : Image -> Z -> Z -> Z -> Z -> string;
  get_cell_score : CellLinked -> Q * Q;
  actualize_header_with_cols : StructuredTableHeadered ->
                               list (list CellLinked) ->
                               StructuredTableHeadered
}.

(** The collaborator calls the properties below speak about. *)
Inductive Call : Type :=
| CallSemiBorderToStruct (t : Table)
| CallExtractTableFromInference (t : InferenceTable)
| CallDetectTablesOnPage
| CallExtractSparseText (b : BorderBox).

Section Pipeline.
Context `{BoxOps} `{Collaborators}.

Definition semi_border_to_struct (semi_border : Table) (image_shape : Z * Z)
  : option StructuredTable :=
  let cells := flat_map objs (tbl_rows semi_border) in
  construct_table_from_cells (tbl_bbox semi_border) cells image_shape.

Definition bordered_to_struct (bordered_table : Table) : res StructuredTable :=
  v_lines <- snap_lines (band_edges top_left_x bottom_right_x
                                    (tbl_cols bordered_table)) ;;
  h_lines <- snap_lines (band_edges top_left_y bottom_right_y
                                    (tbl_rows bordered_table)) ;;
  let cells := flat_map objs (tbl_rows bordered_table) in
  let grid := find_grid_table h_lines v_lines in
  Ok (reconstruct_table_from_grid grid cells).

Definition match_cells_table (text_fields : list TextField) (table : Table)
  : Z :=
  let cells := flat_map objs (tbl_rows table) in
  fst (match_cells_text_fields cells text_fields).

(** [actualize_text]: a cell with no text box, or with a text box whose text
    is empty, gets the recognised text of its rectangle appended. *)
Definition actualize_cell (img : Image) (c : Cell) : Cell :=
  if match text_boxes c with [] => true | _ => false end
     || existsb (fun text_box => (text text_box =? "")%string) (text_boxes c)
  then
    let text := te_extract img (top_left_x (cell_box c)) (top_left_y (cell_box c))
                           (width (cell_box c)) (height (cell_box c)) in
    {| cell_box := cell_box c;
       text_boxes := text_boxes c ++ [{| bbox := cell_box c; text := text |}] |}
  else c.

Definition actualize_linked (img : Image) (c : CellLinked) : CellLinked :=
  {| cell := actualize_cell img (cell c);
     row := row c; col := col c;
     row_span := row_span c; col_span := col_span c |}.

(** The cells are updated in place, so the row and column views show the
    update too. *)
Definition actualize_text (table : StructuredTable) (img : Image)
  : StructuredTable :=
  {| st_bbox := st_bbox table;
     cells := map (actualize_linked img) (cells table);
     rows := map (map (actualize_linked img)) (rows table);
     cols := map (map (actualize_linked img)) (cols table) |}.

(** *** Header inference by the classifier ([analyse], [create_header]) *)

Definition header_cells (series : list CellLinked) : list CellLinked :=
  filter (fun c => let '(header_score, cell_score) := get_cell_score c in
                   Qgtb header_score cell_score)
         series.

Definition analyse (series : list CellLinked) : bool :=
  let headers := header_cells series in
  let thresh := 5 in
  let len_headers := inject_Z (Z.of_nat (List.length headers)) in
  let len_series := Z.of_nat (List.length series) in
  if len_series >? thresh
  then Qgtb len_headers (inject_Z len_series / inject_Z thresh)
  else Qgtb len_headers (inject_Z len_series / 2).

(** [enumerate(xs)] *)
Definition enumerate {A : Type} (xs : list A) : list (nat * A) :=
  combine (seq 0 (List.length xs)) xs.

(** The loop body of [create_header]; the state is
    [(header_candidates, last_header)]. *)
Definition create_header_step
  (st : list (nat * bool * list CellLinked) * option nat)
  (item : nat * list CellLinked)
  : list (nat * bool * list CellLinked) * option nat :=
  let '(header_candidates, last_header) := st in
  let '(idx, line) := item in
  if analyse line
  then (header_candidates ++ [(idx, true, line)], Some idx)
  else (header_candidates ++ [(idx, false, line)], last_header).

(** [create_header] returns the header; the second component is what the call
    appends to the diagnostic file [cases75.txt]. *)
Definition create_header (series : list (list CellLinked)) (header_limit : nat)
  : list (list CellLinked) * list (list (list CellLinked)) :=
  let '(header_candidates, last_header) :=
    fold_left create_header_step (enumerate (firstn header_limit series))
              ([], None) in
  let header :=
    match last_header with
    | Some last_header =>
        map (fun '(idx, is_header, line) => line)
            (firstn (last_header + 1) header_candidates)
    | None => []
    end in
  if Qgtb (inject_Z (Z.of_nat (List.length header)))
          ((3 # 4) * inject_Z (Z.of_nat (List.length series)))
  then ([], [series])
  else (header, []).

(** The terms of the specification: a line is header-like when more than a
    fifth of its cells (more than half, for a line of at most five cells) have
    a header-likelihood above their body-likelihood; [last_index f xs] is the
    index of the last element of [xs] that satisfies [f]. *)
Definition header_like (line : list CellLinked) : Prop :=
  let count := Z.of_nat (List.length (header_cells line)) in
  let len := Z.of_nat (List.length line) in
  if 5 <? len then len < 5 * count else len < 2 * count.

Fixpoint last_index {A : Type} (f : A -> bool) (xs : list A) : option nat :=
  match xs with
  | [] => None
  | x :: rest =>
      match last_index f rest with
      | Some k => Some (S k)
      | None => if f x then Some 0%nat else None
      end
  end.

(** *** The mask-based build ([extract_table_from_inference]) *)

(** [min([...])] and [max([...])] of a list that is not empty where they are
    called. *)
Definition list_min (xs : list Z) : Z :=
  match xs with
  | [] => 0
  | x :: rest => fold_left Z.min rest x
  end.

Definition list_max (xs : list Z) : Z :=
  match xs with
  | [] => 0
  | x :: rest => fold_left Z.max rest x
  end.

(** A proposal cell is refitted to its text boxes. *)
Definition refit_cell (c : Cell) : Cell :=
  match text_boxes c with
  | [] => c
  | [tb] =>
      {| cell_box := {| top_left_x := top_left_x (bbox tb);
                        top_left_y := top_left_y (bbox tb);
                        bottom_right_x := bottom_right_x (bbox tb);
                        bottom_right_y := bottom_right_y (bbox tb) |};
         text_boxes := text_boxes c |}
  | tbs =>
      {| cell_box :=
           {| top_left_x := list_min (map (fun tb => top_left_x (bbox tb)) tbs);
              top_left_y := list_min (map (fun tb => top_left_y (bbox tb)) tbs);
              bottom_right_x :=
                list_max (map (fun tb => bottom_right_x (bbox tb)) tbs);
              bottom_right_y :=
                list_max (map (fun tb => bottom_right_y (bbox tb)) tbs) |};
         text_boxes := text_boxes c |}
  end.

(** A cell is shrunk to the sub-regions the text recognition finds in it; the
    four assignments run in the source's order, the last two reading the
    corner before it is changed. *)
Definition shrink_cell (img : Image) (c : Cell) : Cell :=
  let b := cell_box c in
  let region := te_extract_region img (top_left_x b) (top_left_y b)
                                  (width b) (height b) in
  match region with
  | [] => c
  | _ =>
      let regions := map (fun '(x, y, w, h) => (x, y, x + w, y + h)) region in
      let new_bottom_right_x :=
        Z.min (top_left_x b
               + list_max (map (fun '(x, y, x2, y2) => x2) regions))
              (bottom_right_x b) in
      let new_bottom_right_y :=
        Z.min (top_left_y b
               + list_max (map (fun '(x, y, x2, y2) => y2) regions))
              (bottom_right_y b) in
      let new_top_left_x :=
        Z.max (top_left_x b
               + list_min (map (fun '(x, y, x2, y2) => x) regions))
              (top_left_x b) in
      let new_top_left_y :=
        Z.max (top_left_y b
               + list_min (map (fun '(x, y, x2, y2) => y) regions))
              (top_left_y b) in
      {| cell_box := {| top_left_x := new_top_left_x;
                        top_left_y := new_top_left_y;
                        bottom_right_x := new_bottom_right_x;
                        bottom_right_y := new_bottom_right_y |};
         text_boxes := text_boxes c |}
  end.

Definition extract_table_from_inference (img : Image)
  (inf_table : InferenceTable) (not_matched_text : list TextField)
  (image_shape : Z * Z) : option StructuredTable :=
  let merged_t_fields :=
    merge_closest_text_fields (sorted top_left_leb not_matched_text) in
  let tags1 := map refit_cell (tags inf_table) in
  let tags2 := tags1 ++ map text_to_cell merged_t_fields in
  let tags3 := map (shrink_cell img) tags2 in
  construct_table_from_cells (inf_bbox inf_table) tags3 image_shape.

End Pipeline.

(** ** The page and its serialised form *)

(** Modelled from the spec: Page, a page number, a box, the ordered tables
    and the ordered free-text blocks, both empty when the page is created;
    its blocks are the tables followed by the text fields. *)
Record Page : Type := mkPage {
  page_num : Z;
  page_bbox : BorderBox;
  tables : list StructuredTableHeadered;
  page_text : list TextField
}.

Inductive Block : Type :=
| TableBlock (t : StructuredTableHeadered)
| TextBlock (t : TextField).

Definition page_blocks (page : Page) : list Block :=
  map TableBlock (tables page) ++ map TextBlock (page_text page).

Record BBoxDict : Type := mkBBoxDict {
  d_left : Z;
  d_top : Z;
  d_height : Z;
  d_width : Z
}.

Record CellDict : Type := mkCellDict {
  d_row : Z;
  d_column : Z;
  d_rowspan : Z;
  d_colspan : Z;
  d_cell_bbox : BBoxDict;
  d_cell_text : string
}.

Inductive BlockDict : Type :=
| TableDict (d_bbox : BBoxDict) (d_header d_cells : list CellDict)
| TextDict (d_bbox : BBoxDict) (d_text : string).

Record PageDict : Type := mkPageDict {
  d_page_num : Z;
  d_page_bbox : BBoxDict;
  d_blocks : list BlockDict
}.

Definition bbox_to_dict (b : BorderBox) : BBoxDict :=
  {| d_left := top_left_x b; d_top := top_left_y b;
     d_height := height b; d_width := width b |}.

Definition cell_to_dict (c : CellLinked) : CellDict :=
  {| d_row := row c;
     d_column := col c;
     d_rowspan := row_span c;
     d_colspan := col_span c;
     d_cell_bbox := bbox_to_dict (cell_box (cell c));
     d_cell_text :=
       String.concat " " (map text (sorted top_left_leb (text_boxes (cell c)))) |}.

Definition table_to_dict (table : StructuredTableHeadered) : BlockDict :=
  let header := List.concat (header table) in
  TableDict (bbox_to_dict (sth_bbox table))
            (map cell_to_dict header)
            (map cell_to_dict (sth_cells table)).

Definition text_to_dict (t : TextField) : BlockDict :=
  TextDict (bbox_to_dict (bbox t)) (text t).

Definition block_to_dict (block : Block) : BlockDict :=
  match block with
  | TableBlock t => table_to_dict t
  | TextBlock t => text_to_dict t
  end.

Definition page_to_dict (page : Page) : PageDict :=
  let blocks := page_blocks page in
  {| d_page_num := page_num page;
     d_page_bbox := bbox_to_dict (page_bbox page);
     d_blocks := map block_to_dict blocks |}.

(** ** Decidable equality of candidates, for [detected_tables.remove] *)

Definition BorderBox_eq_dec (a b : BorderBox) : {a = b} + {a <> b}.
Proof. decide equality; apply Z.eq_dec. Defined.

Definition TextField_eq_dec (a b : TextField) : {a = b} + {a <> b}.
Proof. decide equality; [apply string_dec | apply BorderBox_eq_dec]. Defined.

Definition Cell_eq_dec (a b : Cell) : {a = b} + {a <> b}.
Proof.
  decide equality;
    [apply (list_eq_dec TextField_eq_dec) | apply BorderBox_eq_dec].
Defined.

Definition CellLinked_eq_dec (a b : CellLinked) : {a = b} + {a <> b}.
Proof. decide equality; try apply Z.eq_dec; apply Cell_eq_dec. Defined.

Definition StructuredTable_eq_dec (a b : StructuredTable)
  : {a = b} + {a <> b}.
Proof.
  decide equality;
    try apply (list_eq_dec (list_eq_dec CellLinked_eq_dec));
    try apply (list_eq_dec CellLinked_eq_dec);
    apply BorderBox_eq_dec.
Defined.

Definition candidate_eq_dec (a b : Z * StructuredTable) : {a = b} + {a <> b}.
Proof.
  decide equality; [apply StructuredTable_eq_dec | apply Z.eq_dec].
Defined.

(** [xs.remove(x)]: the first element equal to [x] is removed.  The pipeline
    calls it with an element it has just read from the list. *)
Fixpoint list_remove {A : Type} (eq_dec : forall a b : A, {a = b} + {a <> b})
  (x : A) (xs : list A) : list A :=
  match xs with
  | [] => []
  | y :: rest => if eq_dec x y then rest else y :: list_remove eq_dec x rest
  end.

(** [truthy] of an optional object appended to a list: [if x: xs.append(x)]. *)
Definition append_if {A : Type} (xs : list A) (x : option A) : list A :=
  match x with
  | Some a => xs ++ [a]
  | None => xs
  end.

(** ** The page processor: table fusion ([process_page]) *)

Section PageProcessor.
Context `{BoxOps} `{Collaborators}.

(** The state of the loop over the detector's regions. *)
Record RegionState : Type := mkRegionState {
  text_fields_to_match : list TextField;
  semi_bordered_tables : list Table;
  detected_tables : list (Z * StructuredTable);
  region_calls : list Call
}.

(** Lines 395-398 and again 424-427: the text fields of a table, taken from
    the pool and reconciled with the scene-text detector's fields when it
    returns any; the second component is the pool that is left. *)
Definition table_text_fields (img : Image) (table : TableLike)
  (table_bbox : BorderBox) (pool : list TextField)
  : list TextField * list TextField :=
  let '(in_table, pool) := match_table_text table pool in
  let paddle_fields := extract_table_text img table_bbox in
  match paddle_fields with
  | [] => (in_table, pool)
  | _ => (merge_text_fields paddle_fields in_table, pool)
  end.

(** [semi_border_score >= mask_rcnn_count_matches and
     semi_border.count_cells() > len(inf_table.tags)] *)
Definition adopt_semi_bordered (semi_border_score mask_rcnn_count_matches
  semi_cells : Z) (n_tags : nat) : bool :=
  (semi_border_score >=? mask_rcnn_count_matches)
  && (semi_cells >? Z.of_nat n_tags).

(** Lines 412-414: the mask-based build and its candidate. *)
Definition mask_based (img : Image) (inf_table : InferenceTable)
  (not_matched : list TextField) (mask_rcnn_count_matches : Z)
  (pool : list TextField) (semi_tables : list Table) (st : RegionState)
  : RegionState :=
  let struct :=
    extract_table_from_inference img inf_table not_matched (shape img) in
  {| text_fields_to_match := pool;
     semi_bordered_tables := semi_tables;
     detected_tables :=
       append_if (detected_tables st)
                 (option_map (fun s => (mask_rcnn_count_matches, s)) struct);
     region_calls :=
       region_calls st ++ [CallExtractTableFromInference inf_table] |}.

(** The body of [for inf_table in inference_tables]. *)
Definition process_region (img : Image) (st : RegionState)
  (inf_table : InferenceTable) : RegionState :=
  let '(in_inf_table, pool) :=
    table_text_fields img (OfInference inf_table) (inf_bbox inf_table)
                      (text_fields_to_match st) in
  let '(mask_rcnn_count_matches, not_matched) :=
    match_cells_text_fields (tags inf_table) in_inf_table in
  if (label inf_table =? "Borderless")%string then
    match semi_bordered img inf_table with
    | Some semi_border =>
        let semi_tables := semi_bordered_tables st ++ [semi_border] in
        let semi_border_score := match_cells_table in_inf_table semi_border in
        if adopt_semi_bordered semi_border_score mask_rcnn_count_matches
                               (count_cells semi_border)
                               (List.length (tags inf_table))
        then
          let struct_table := semi_border_to_struct semi_border (shape img) in
          {| text_fields_to_match := pool;
             semi_bordered_tables := semi_tables;
             detected_tables :=
               append_if (detected_tables st)
                         (option_map (fun s => (semi_border_score, s))
                                     struct_table);
             region_calls :=
               region_calls st ++ [CallSemiBorderToStruct semi_border] |}
        else
          mask_based img inf_table not_matched mask_rcnn_count_matches pool
                     semi_tables st
    | None =>
        mask_based img inf_table not_matched mask_rcnn_count_matches pool
                   (semi_bordered_tables st) st
    end
  else
    mask_based img inf_table not_matched mask_rcnn_count_matches pool
               (semi_bordered_tables st) st.

(** The state of the loop over the classical detector's tables. *)
Record BorderedState : Type := mkBorderedState {
  page_tables : list StructuredTable;
  pending : list (Z * StructuredTable);
  bordered_pool : list TextField;
  bordered_calls : list Call
}.

(** The inner [for score, inf_table in detected_tables] up to its [break]:
    the first candidate whose box is inside the bordered table's box. *)
Definition find_candidate (bordered_table : Table)
  (detected : list (Z * StructuredTable)) : option (Z * StructuredTable) :=
  find (fun '(score, inf_table) =>
          box_is_inside_another (st_bbox inf_table) (tbl_bbox bordered_table)
                                None)
       detected.

(** [bordered_score >= score * 0.5 and
     bordered_table.count_cells() >= len(inf_table.cells) * 0.5] *)
Definition adopt_bordered (bordered_score score bordered_cells : Z)
  (n_cells : nat) : bool :=
  Qgeb (inject_Z bordered_score) (inject_Z score * (1 # 2))
  && Qgeb (inject_Z bordered_cells) (inject_Z (Z.of_nat n_cells) * (1 # 2)).

(** The body of [for bordered_table in image.tables].  A bordered table that
    matches no candidate is still scored ([_ = match_cells_table(...)]); the
    score is dropped. *)
Definition process_bordered (img : Image) (st : BorderedState)
  (bordered_table : Table) : BorderedState :=
  match find_candidate bordered_table (pending st) with
  | Some (score, inf_table) =>
      let '(in_table, pool) :=
        table_text_fields img (OfStructured inf_table) (st_bbox inf_table)
                          (bordered_pool st) in
      let bordered_score := match_cells_table in_table bordered_table in
      if adopt_bordered bordered_score score (count_cells bordered_table)
                        (List.length (cells inf_table))
      then
        let struct_table := semi_border_to_struct bordered_table (shape img) in
        {| page_tables := append_if (page_tables st) struct_table;
           pending := list_remove candidate_eq_dec (score, inf_table) (pending st);
           bordered_pool := pool;
           bordered_calls :=
             bordered_calls st ++ [CallSemiBorderToStruct bordered_table] |}
      else
        {| page_tables := page_tables st ++ [inf_table];
           pending := list_remove candidate_eq_dec (score, inf_table) (pending st);
           bordered_pool := pool;
           bordered_calls := bordered_calls st |}
  | None =>
      let '(in_table, pool) :=
        match_table_text (OfBordered bordered_table) (bordered_pool st) in
      let struct_table := semi_border_to_struct bordered_table (shape img) in
      {| page_tables := append_if (page_tables st) struct_table;
         pending := pending st;
         bordered_pool := pool;
         bordered_calls :=
           bordered_calls st ++ [CallSemiBorderToStruct bordered_table] |}
  end.

(** [score < 0.2 * len(table.cells)] *)
Definition low_score (candidate : Z * StructuredTable) : bool :=
  let '(score, table) := candidate in
  Qgtb ((1 # 5) * inject_Z (Z.of_nat (List.length (cells table))))
       (inject_Z score).

(** Lines 416-451: the tables of the page and the calls made to get them. *)
Definition reconcile_bordered (img : Image) (text_fields : list TextField)
  (has_bordered : bool) (detected : list (Z * StructuredTable))
  : list StructuredTable * list Call :=
  if has_bordered || existsb low_score detected then
    match detect_tables_on_page img with
    | [] => (map snd detected, [CallDetectTablesOnPage])
    | image_tables =>
        let st :=
          fold_left (process_bordered img) image_tables
                    {| page_tables := [];
                       pending := detected;
                       bordered_pool := text_fields;
                       bordered_calls := [CallDetectTablesOnPage] |} in
        (page_tables st ++ map snd (pending st), bordered_calls st)
    end
  else (map snd detected, []).

(** Lines 464-472: both headers of one table. *)
Definition table_with_headers (table : StructuredTable)
  : StructuredTableHeadered :=
  let header_rows := fst (create_header (rows table) 6) in
  let table_with_header := from_structured_and_rows table header_rows in
  let header_cols := fst (create_header (cols table) 5) in
  actualize_header_with_cols table_with_header header_cols.

(** Lines 474-497: the free-text blocks between and around the tables. *)
Definition text_borders_of (img : Image)
  (page_tables : list StructuredTableHeadered) : list Z :=
  [1]
  ++ flat_map (fun table => let '(_, y, _, y2) := box (sth_bbox table) in [y; y2])
              page_tables
  ++ [shape0 img].

Definition text_candidate_boxes (img : Image) (text_borders : list Z)
  : res (list BorderBox) :=
  for_each (fun boxes i =>
              lo <- getitem text_borders (i * 2) ;;
              hi <- getitem text_borders (i * 2 + 1) ;;
              if hi - lo >? 3
              then Ok (boxes ++ [{| top_left_x := 1;
                                    top_left_y := lo;
                                    bottom_right_x := shape1 img;
                                    bottom_right_y := hi |}])
              else Ok boxes)
           (seq 0 (List.length text_borders / 2))
           [].

Definition extract_text_blocks (img : Image) (boxes : list BorderBox)
  : list TextField * list Call :=
  fold_left (fun '(page_text, calls) b =>
               let text := te_extract_sparse img (top_left_x b) (top_left_y b)
                                             (width b) (height b) in
               ((if (text =? "")%string then page_text
                 else page_text ++ [{| bbox := b; text := text |}]),
                calls ++ [CallExtractSparseText b]))
            boxes ([], []).

(** [process_page] from the call of the learned detector on: [img] is the
    image read, [num] the page number read from the file name and
    [text_fields] the embedded text fields after [_scale_poppler_result]
    (the lines that compute the three are in [process_page_file] below).
    The result is the serialised page and the collaborator calls made. *)
Definition process_page (img : Image) (num : Z) (text_fields : list TextField)
  : res (PageDict * list Call) :=
  let page_box := {| top_left_x := 0; top_left_y := 0;
                     bottom_right_x := shape1 img;
                     bottom_right_y := shape0 img |} in
  let page := {| page_num := num; page_bbox := page_box;
                 tables := []; page_text := [] |} in
  let inference_tables := inference_image img in
  match inference_tables with
  | [] => Ok (page_to_dict page, [])
  | _ =>
      let has_bordered :=
        existsb (fun i_tab => (label i_tab =? "Bordered")%string)
                inference_tables in
      let regions :=
        fold_left (process_region img) inference_tables
                  {| text_fields_to_match := text_fields;
                     semi_bordered_tables := [];
                     detected_tables := [];
                     region_calls := [] |} in
      let '(page_tables, calls) :=
        reconcile_bordered img text_fields has_bordered
                           (detected_tables regions) in
      let page_tables := map (fun table => actualize_text table img) page_tables in
      let tables_with_header := map table_with_headers page_tables in
      let text_borders := text_borders_of img tables_with_header in
      boxes <- text_candidate_boxes img text_borders ;;
      let '(texts, text_calls) := extract_text_blocks img boxes in
      Ok (page_to_dict {| page_num := num; page_bbox := page_box;
                          tables := tables_with_header;
                          page_text := texts |},
          region_calls regions ++ calls ++ text_calls)
  end.

End PageProcessor.

(** ** Concrete inputs *)

(** Two column bands that share the boundary x = 10, and one row band. *)
Definition two_columns : Table :=
  {| tbl_bbox := mkBorderBox 0 0 20 5;
     tbl_rows := [mkBand (mkBorderBox 0 0 20 5) []];
     tbl_cols := [mkBand (mkBorderBox 0 0 10 5) [];
                  mkBand (mkBorderBox 10 0 20 5) []] |}.

(** A one-cell row whose text is [s]. *)
Definition text_row (s : string) : list CellLinked :=
  [mkCellLinked (mkCell (mkBorderBox 0 0 1 1)
                        [mkTextField (mkBorderBox 0 0 1 1) s])
                0 0 1 1].

(** Four rows with digit densities 1/2, 0, 1/4 and 1. *)
Definition density_table : StructuredTable :=
  {| st_bbox := mkBorderBox 0 0 1 4;
     cells := [];
     rows := [text_row "a1"; text_row "ab"; text_row "abc1"; text_row "11"];
     cols := [] |}.

(** A text field 10 pixel units wide. *)
Definition narrow_field : TextField :=
  mkTextField (mkBorderBox 0 0 10 10) "a".

(** A text field 30 pixel units wide. *)
Definition wide_field : TextField :=
  mkTextField (mkBorderBox 0 0 30 10) "a".

(** Two nested paddle fields and one poppler field that lies in the outer
    one only. *)
Definition paddle_outer : TextField :=
  mkTextField (mkBorderBox 0 0 100 100) "outer".
Definition paddle_inner : TextField :=
  mkTextField (mkBorderBox 10 10 20 20) "inner".
Definition poppler_word : TextField :=
  mkTextField (mkBorderBox 50 50 60 60) "word".

(** *** A page with stand-in collaborators *)

(** A cell at line [n] with the text [s], or with no text box when [s] is
    empty. *)
Definition demo_cell (n : Z) (s : string) : Cell :=
  mkCell (mkBorderBox 10 (10 + 10 * n) 90 (20 + 10 * n))
         (if (s =? "")%string then []
          else [mkTextField (mkBorderBox 10 (10 + 10 * n) 90 (20 + 10 * n)) s]).

(** A Borderless region with five proposal cells, four of them with text. *)
Definition demo_region : InferenceTable :=
  {| inf_bbox := mkBorderBox 10 10 90 70;
     tags := [demo_cell 0 "Name"; demo_cell 1 "Anna"; demo_cell 2 "Ben";
              demo_cell 3 "Carl"; demo_cell 4 ""];
     label := "Borderless" |}.

(** Its semi-bordered reconstruction: two rows by three columns, six cells,
    five of them with text. *)
Definition demo_semi : Table :=
  {| tbl_bbox := mkBorderBox 10 10 90 70;
     tbl_rows := [mkBand (mkBorderBox 10 10 90 40)
                         [demo_cell 0 "Name"; demo_cell 1 "Anna";
                          demo_cell 2 "Ben"];
                  mkBand (mkBorderBox 10 40 90 70)
                         [demo_cell 3 "Carl"; demo_cell 4 "Dora";
                          demo_cell 5 ""]];
     tbl_cols := [mkBand (mkBorderBox 10 10 40 70) [];
                  mkBand (mkBorderBox 40 10 60 70) [];
                  mkBand (mkBorderBox 60 10 90 70) []] |}.

(** A bordered table of two rows by two columns whose rows hold five cells
    with text. *)
Definition demo_bordered : Table :=
  {| tbl_bbox := mkBorderBox 0 0 100 100;
     tbl_rows := [mkBand (mkBorderBox 0 0 100 50)
                         [demo_cell 0 "Name"; demo_cell 1 "Anna";
                          demo_cell 2 "Ben"];
                  mkBand (mkBorderBox 0 50 100 100)
                         [demo_cell 3 "Carl"; demo_cell 4 "Dora"]];
     tbl_cols := [mkBand (mkBorderBox 0 0 50 100) [];
                  mkBand (mkBorderBox 50 0 100 100) []] |}.

Definition link_cell (c : Cell) : CellLinked :=
  {| cell := c; row := 0; col := 0; row_span := 1; col_span := 1 |}.

(** A candidate of eight cells inside the bordered table, with score 10. *)
Definition demo_candidate : StructuredTable :=
  {| st_bbox := mkBorderBox 10 10 90 90;
     cells := map (fun n => link_cell (demo_cell n "x")) [0; 1; 2; 3; 4; 5; 6; 7];
     rows := [];
     cols := [] |}.

(** Ten one-cell rows; the cell of row [i] has grid row [i]. *)
Definition demo_series : list (list CellLinked) :=
  map (fun i => [{| cell := demo_cell i "x"; row := i; col := 0;
                    row_span := 1; col_span := 1 |}])
      [0; 1; 2; 3; 4; 5; 6; 7; 8; 9].

(** Stand-ins: the matcher counts the cells that have a text box; a table
    counts rows times columns cells; the classifier scores the cells of grid
    rows 0, 1, 2 and 4 as header cells; the learned detector finds no region
    on the image named [blank] and [demo_region] on any other; the text
    recognition reads [text] everywhere. *)
Definition demo_collaborators : Collaborators :=
  {| inference_image :=
       fun img => if (image_name img =? "blank")%string then []
                  else [demo_region];
     match_table_text := fun _ pool => (pool, []);
     extract_table_text := fun _ _ => [];
     match_cells_text_fields :=
       fun cells text_fields =>
         (Z.of_nat (List.length
                      (filter (fun c => match text_boxes c with
                                        | [] => false
                                        | _ => true
                                        end) cells)),
          text_fields);
     semi_bordered := fun _ _ => Some demo_semi;
     count_cells :=
       fun t => Z.of_nat (List.length (tbl_rows t) * List.length (tbl_cols t));
     construct_table_from_cells :=
       fun b cells _ =>
         Some {| st_bbox := b; cells := map link_cell cells;
                 rows := []; cols := [] |};
     Grid := list Z * list Z;
     find_grid_table := fun h_lines v_lines => (h_lines, v_lines);
     reconstruct_table_from_grid :=
       fun _ cells =>
         {| st_bbox := mkBorderBox 0 0 0 0; cells := map link_cell cells;
            rows := []; cols := [] |};
     detect_tables_on_page := fun _ => [demo_bordered];
     te_extract := fun _ _ _ _ _ => "x";
     te_extract_region := fun _ _ _ _ _ => [];
     te_extract_sparse := fun _ _ _ _ _ => "text";
     get_cell_score :=
       fun c => if existsb (Z.eqb (row c)) [0; 1; 2; 4] then (1, 0)%Q
                else (0, 1)%Q;
     actualize_header_with_cols := fun t _ => t |}.

Definition blank_image : Image :=
  {| image_name := "blank"; shape0 := 200; shape1 := 100 |}.

Definition scan_image : Image :=
  {| image_name := "scan"; shape0 := 200; shape1 := 100 |}.


Definition pending_candidate : BorderedState :=
  {| page_tables := [];
     pending := [(10, demo_candidate)];
     bordered_pool := [];
     bordered_calls := [] |}.

(** *** Stand-ins that tell the two table builders apart *)

(** The index of the lattice interval that holds [x]: the number of lines
    after the first that are not beyond [x]. *)
Definition lattice_index (lines : list Z) (x : Z) : Z :=
  Z.of_nat (List.length (filter (fun line => line <=? x) (tl lines))).

(** A cell at the lattice position of its top-left corner. *)
Definition lattice_cell (h_lines v_lines : list Z) (c : Cell) : CellLinked :=
  {| cell := c;
     row := lattice_index h_lines (top_left_y (cell_box c));
     col := lattice_index v_lines (top_left_x (cell_box c));
     row_span := 1; col_span := 1 |}.

(** [demo_collaborators] with a grid construction that uses its lattice
    (every cell goes to the lattice position of its top-left corner, the box
    of the table spans the outer lines), and, when [builds] is false, with a
    cell-based construction that returns no table. *)
Definition builder_collaborators (builds : bool) : Collaborators :=
  {| inference_image := @inference_image demo_collaborators;
     match_table_text := @match_table_text demo_collaborators;
     extract_table_text := @extract_table_text demo_collaborators;
     match_cells_text_fields := @match_cells_text_fields demo_collaborators;
     semi_bordered := @semi_bordered demo_collaborators;
     count_cells := @count_cells demo_collaborators;
     construct_table_from_cells :=
       fun b cells image_shape =>
         if builds
         then @construct_table_from_cells demo_collaborators b cells image_shape
         else None;
     Grid := list Z * list Z;
     find_grid_table := fun h_lines v_lines => (h_lines, v_lines);
     reconstruct_table_from_grid :=
       fun '(h_lines, v_lines) cells =>
         {| st_bbox := mkBorderBox (hd 0 v_lines) (hd 0 h_lines)
                                   (last v_lines 0) (last h_lines 0);
            cells := map (lattice_cell h_lines v_lines) cells;
            rows := []; cols := [] |};
     detect_tables_on_page := @detect_tables_on_page demo_collaborators;
     te_extract := @te_extract demo_collaborators;
     te_extract_region := @te_extract_region demo_collaborators;
     te_extract_sparse := @te_extract_sparse demo_collaborators;
     get_cell_score := @get_cell_score demo_collaborators;
     actualize_header_with_cols :=
       @actualize_header_with_cols demo_collaborators |}.

(** The cells of [demo_bordered] as the cell-based construction and as the
    line-snapped reconstruction place them. *)
Definition demo_cells : list Cell :=
  [demo_cell 0 "Name"; demo_cell 1 "Anna"; demo_cell 2 "Ben";
   demo_cell 3 "Carl"; demo_cell 4 "Dora"].

Definition cell_built_table : StructuredTable :=
  {| st_bbox := mkBorderBox 0 0 100 100;
     cells := map link_cell demo_cells;
     rows := []; cols := [] |}.

Definition line_snapped_table : StructuredTable :=
  {| st_bbox := mkBorderBox 0 0 100 100;
     cells := map (lattice_cell [0; 25; 100] [0; 25; 100]) demo_cells;
     rows := []; cols := [] |}.

(** ** The run over the pages ([process_pages]) *)

(** What a run can raise: a page image with no entry in [poppler_pages], a
    file name whose stem [int] rejects, an image that [cv2.imread] could not
    read ([img.shape] on [None]), or what [process_page] raises after that.
    The handler of [process_pages] logs the exception and raises it again. *)
Inductive run_error : Type :=
| KeyError (key : string)
| ValueError (literal : string)
| AttributeError
| PageError (e : exn).

(** [a / b] where [b] is a Python number, as in
    [img.shape[0] / poppler_page.bbox.height]. *)
Definition truediv_number (a : Z) (b : Q) : res Q :=
  if Qeq_bool b 0 then Raise ZeroDivisionError
  else Ok (inject_Z a / b)%Q.

(** [name.split(".")[0]]: the part of the name before its first dot. *)
Fixpoint stem (name : string) : string :=
  match name with
  | EmptyString => EmptyString
  | String c rest => if Ascii.eqb c "."%char then EmptyString
                     else String c (stem rest)
  end.

(** [d[key]] on a dict given by its items. *)
Fixpoint dict_get {V : Type} (d : list (string * V)) (key : string)
  : option V :=
  match d with
  | [] => None
  | (k, v) :: rest => if (k =? key)%string then Some v else dict_get rest key
  end.

Section Run.
Context `{BoxOps} `{Collaborators}.
(** The text layer of one page and its text fields, as the poppler extractor
    returns them, with [poppler_page.bbox.height] and
    [poppler_page.text_fields]. *)
Variable PopplerPage : Type.
Variable PopplerTextField : Type.
Variable poppler_height : PopplerPage -> Q.
Variable poppler_text_fields : PopplerPage -> list PopplerTextField.
(** [poppler_text_field_to_text_field(text_field, scale)]. *)
Variable poppler_text_field_to_text_field : PopplerTextField -> Q -> TextField.
(** [cv2.imread] of the image with the given file name; [None] when the
    file cannot be read. *)
Variable imread : string -> option Image.
(** The builtin [int] on a string; [None] is [ValueError]. *)
Variable py_int : string -> option Z.

(** [_scale_poppler_result]: the page's text fields in image coordinates.
    The visualizer then draws the fields, which leaves them as they are. *)
Definition scale_poppler_result (img : Image) (poppler_page : PopplerPage)
  : res (list TextField) :=
  scale <- truediv_number (shape0 img) (poppler_height poppler_page) ;;
  Ok (map (fun text_field => poppler_text_field_to_text_field text_field scale)
          (poppler_text_fields poppler_page)).

(** [PageProcessor.process_page] from its first line: the image is read,
    the page number is parsed from the file name, the page box is taken from
    [img.shape], the text layer is scaled, and [process_page] above runs on
    the three results. *)
Definition process_page_file (name : string) (poppler_page : PopplerPage)
  : run_error + (PageDict * list Call) :=
  let img := imread name in
  match py_int (stem name) with
  | None => inl (ValueError (stem name))
  | Some num =>
      match img with
      | None => inl AttributeError
      | Some img =>
          match (text_fields <- scale_poppler_result img poppler_page ;;
                 process_page img num text_fields) with
          | Ok result => inr result
          | Raise e => inl (PageError e)
          end
      end
  end.

(** One iteration of [process_pages]: the dict lookup is an argument of the
    call and is evaluated before [process_page] starts. *)
Definition process_page_of (poppler_pages : list (string * PopplerPage))
  (name : string) : run_error + PageDict :=
  match dict_get poppler_pages (stem name) with
  | None => inl (KeyError (stem name))
  | Some poppler_page =>
      match process_page_file name poppler_page with
      | inl e => inl e
      | inr (page_dict, _) => inr page_dict
      end
  end.

(** The loop of [process_pages] over the sorted image names. *)
Fixpoint process_pages_loop (poppler_pages : list (string * PopplerPage))
  (names : list string) (pages : list PageDict) : run_error + list PageDict :=
  match names with
  | [] => inr pages
  | name :: rest =>
      match process_page_of poppler_pages name with
      | inl e => inl e
      | inr page => process_pages_loop poppler_pages rest (pages ++ [page])
      end
  end.

(** [process_pages]; [names] is [sorted(images_path.glob("*.png"))]. *)
Definition process_pages (names : list string)
  (poppler_pages : list (string * PopplerPage)) : run_error + list PageDict :=
  process_pages_loop poppler_pages names [].

End Run.

(** ** Terms of the further properties *)

(** The order a boolean comparison decides. *)
Definition le_of {A : Type} (leb : A -> A -> bool) (a b : A) : Prop :=
  leb a b = true.

(** The sort key of a text field, [(x.bbox.top_left_y, x.bbox.top_left_x)]. *)
Definition top_left_key (f : TextField) : Z * Z :=
  (top_left_y (bbox f), top_left_x (bbox f)).

(** The free-text bands in closed form: [pair_boxes] pairs a list of borders
    as (0,1), (2,3), ... and keeps the pairs more than 3 apart;
    [gap_boxes img top tables] is the bands between [top], the tables taken
    in list order, and the bottom of the image. *)
Definition band_box (img : Image) (lo hi : Z) : BorderBox :=
  {| top_left_x := 1; top_left_y := lo;
     bottom_right_x := shape1 img; bottom_right_y := hi |}.

Fixpoint pair_boxes (img : Image) (borders : list Z) : list BorderBox :=
  match borders with
  | lo :: hi :: rest =>
      (if hi - lo >? 3 then [band_box img lo hi] else [])
      ++ pair_boxes img rest
  | _ => []
  end.

Fixpoint gap_boxes (img : Image) (top : Z)
  (page_tables : list StructuredTableHeadered) : list BorderBox :=
  match page_tables with
  | [] => if shape0 img - top >? 3 then [band_box img top (shape0 img)] else []
  | table :: rest =>
      (if top_left_y (sth_bbox table) - top >? 3
       then [band_box img top (top_left_y (sth_bbox table))] else [])
      ++ gap_boxes img (bottom_right_y (sth_bbox table)) rest
  end.

(** The calls to the classical bordered detector. *)
Definition is_detect_call (c : Call) : bool :=
  match c with
  | CallDetectTablesOnPage => true
  | _ => false
  end.

Section RegionBuilds.
Context `{BoxOps} `{Collaborators}.

(** The table build the region loop runs for a region: the mask-based build
    of the region, or, for a Borderless region, the cell-based construction
    on its semi-bordered reconstruction. *)
Definition region_build (img : Image) (inf_table : InferenceTable) (c : Call)
  : Prop :=
  c = CallExtractTableFromInference inf_table
  \/ (label inf_table = "Borderless"
      /\ exists semi_border,
           semi_bordered img inf_table = Some semi_border
           /\ c = CallSemiBorderToStruct semi_border).

(** A table that one of the two builds returns for a region. *)
Definition built_from (img : Image) (inf_table : InferenceTable)
  (table : StructuredTable) : Prop :=
  (exists not_matched,
      extract_table_from_inference img inf_table not_matched (shape img)
      = Some table)
  \/ (exists semi_border,
         semi_bordered img inf_table = Some semi_border
         /\ semi_border_to_struct semi_border (shape img) = Some table).

End RegionBuilds.

(** A line of five cells of which the first two are header cells for the
    stand-in classifier, and a cell that is not. *)
Definition grid_cell (i : Z) : CellLinked :=
  {| cell := demo_cell i "x"; row := i; col := 0;
     row_span := 1; col_span := 1 |}.

Definition five_cell_line : list CellLinked :=
  map grid_cell [0; 1; 3; 5; 6].

Definition body_cell : CellLinked := grid_cell 7.

(** Two cells that hold the same two fragments in opposite orders. *)
Definition upper_fragment : TextField :=
  mkTextField (mkBorderBox 10 10 40 20) "upper".
Definition lower_fragment : TextField :=
  mkTextField (mkBorderBox 10 30 40 40) "lower".

Definition cell_upper_first : CellLinked :=
  link_cell (mkCell (mkBorderBox 10 10 40 40) [upper_fragment; lower_fragment]).
Definition cell_lower_first : CellLinked :=
  link_cell (mkCell (mkBorderBox 10 10 40 40) [lower_fragment; upper_fragment]).

(** A run over two page images of which only the first has a text layer;
    a text layer is given by the height of its page and holds no text field;
    every image file is readable; the stand-in for [int] reads the stems [1]
    and [2]. *)
Definition demo_imread (name : string) : option Image :=
  Some {| image_name := "blank"; shape0 := 200; shape1 := 100 |}.

Definition demo_height (poppler_page : Q) : Q := poppler_page.

Definition demo_text_fields (poppler_page : Q) : list TextField := [].

Definition demo_convert (text_field : TextField) (scale : Q) : TextField :=
  text_field.

Definition demo_int (literal : string) : option Z :=
  if (literal =? "1")%string then Some 1
  else if (literal =? "2")%string then Some 2
  else None.

Definition demo_poppler_pages : list (string * Q) := [("1", 842%Q)].

(** * Properties *)

(** ** Python results *)

Lemma Ok_inj {A : Type} (a b : A) : Ok a = Ok b -> a = b.
Proof. intros E. injection E as E. exact E. Qed.

Lemma getitem_Ok {A : Type} (xs : list A) (i : nat) (x : A) :
  nth_error xs i = Some x -> getitem xs i = Ok x.
Proof. unfold getitem. intros ->. reflexivity. Qed.

Lemma getitem_last_Ok {A : Type} (xs : list A) (x d : A) :
  getitem_last (x :: xs) = Ok (last (x :: xs) d).
Proof.
  unfold getitem_last.
  destruct (rev (x :: xs)) as [|y ys] eqn:E.
  - apply (f_equal (@List.length A)) in E.
    rewrite length_rev in E. discriminate.
  - assert (E' : x :: xs = rev ys ++ [y]).
    { rewrite <- (rev_involutive (x :: xs)), E. reflexivity. }
    rewrite E', last_last. reflexivity.
Qed.

Lemma length_slice_1_m1 {A : Type} (xs : list A) :
  List.length (slice_1_m1 xs) = (List.length xs - 2)%nat.
Proof.
  unfold slice_1_m1. destruct xs as [|x xs]; [reflexivity|]. simpl.
  induction xs as [|y ys IH]; [reflexivity|].
  destruct ys as [|z zs]; [reflexivity|].
  simpl in *. rewrite IH. lia.
Qed.

(** ** Sorting *)

Lemma length_insert_sorted {A : Type} (leb : A -> A -> bool) (x : A) xs :
  List.length (insert_sorted leb x xs) = S (List.length xs).
Proof.
  induction xs as [|y ys IH]; simpl; [reflexivity|].
  destruct (leb x y); simpl; [reflexivity | now rewrite IH].
Qed.

Lemma length_sorted {A : Type} (leb : A -> A -> bool) (xs : list A) :
  List.length (sorted leb xs) = List.length xs.
Proof.
  induction xs as [|x xs IH]; simpl; [reflexivity|].
  now rewrite length_insert_sorted, IH.
Qed.

Lemma insert_sorted_perm {A : Type} (leb : A -> A -> bool) (x : A) xs :
  Permutation (x :: xs) (insert_sorted leb x xs).
Proof.
  induction xs as [|y ys IH]; simpl; [apply Permutation_refl|].
  destruct (leb x y); [apply Permutation_refl|].
  eapply perm_trans; [apply perm_swap | apply perm_skip, IH].
Qed.

Lemma sorted_perm {A : Type} (leb : A -> A -> bool) (xs : list A) :
  Permutation xs (sorted leb xs).
Proof.
  induction xs as [|x xs IH]; simpl; [apply perm_nil|].
  eapply perm_trans; [apply perm_skip, IH | apply insert_sorted_perm].
Qed.

Lemma insert_sorted_Sorted (x : Z) (xs : list Z) :
  Sorted Z.le xs -> Sorted Z.le (insert_sorted Z.leb x xs).
Proof.
  induction xs as [|y ys IH]; intros Hs; simpl.
  - repeat constructor.
  - destruct (Z.leb_spec x y) as [Hle|Hlt].
    + constructor; [exact Hs | constructor; exact Hle].
    + inversion Hs as [|? ? Hs' Hhd]; subst.
      constructor; [apply IH, Hs'|].
      destruct ys as [|z zs]; simpl.
      * constructor. lia.
      * destruct (Z.leb_spec x z); constructor; [lia|].
        inversion Hhd; subst. assumption.
Qed.

Lemma sorted_Sorted (xs : list Z) : Sorted Z.le (sorted Z.leb xs).
Proof.
  induction xs as [|x xs IH]; simpl; [constructor|].
  apply insert_sorted_Sorted, IH.
Qed.

Lemma sorted_fixed (xs : list Z) : Sorted Z.le xs -> sorted Z.leb xs = xs.
Proof.
  induction xs as [|x xs IH]; intros Hs; [reflexivity|].
  inversion Hs as [|? ? Hs' Hhd]; subst. simpl. rewrite (IH Hs').
  destruct xs as [|y ys]; [reflexivity|]. simpl.
  inversion Hhd; subst.
  destruct (Z.leb_spec x y); [reflexivity | lia].
Qed.

Lemma sorted_set_Sorted (xs : list Z) : Sorted Z.le (sorted_set xs).
Proof. apply sorted_Sorted. Qed.

Lemma sorted_set_NoDup (xs : list Z) : NoDup (sorted_set xs).
Proof.
  unfold sorted_set.
  eapply Permutation_NoDup; [apply sorted_perm | apply NoDup_nodup].
Qed.

Lemma length_nodup_le (xs : list Z) :
  (List.length (nodup Z.eq_dec xs) <= List.length xs)%nat.
Proof.
  induction xs as [|x xs IH]; simpl; [lia|].
  destruct (in_dec Z.eq_dec x xs); simpl; lia.
Qed.

Lemma length_sorted_set_le (xs : list Z) :
  (List.length (sorted_set xs) <= List.length xs)%nat.
Proof. unfold sorted_set. rewrite length_sorted. apply length_nodup_le. Qed.

Lemma sorted_set_nonempty (x : Z) (xs : list Z) : sorted_set (x :: xs) <> [].
Proof.
  intros E.
  assert (Hin : In x (sorted_set (x :: xs))).
  { unfold sorted_set.
    eapply Permutation_in; [apply sorted_perm|].
    apply nodup_In. left. reflexivity. }
  rewrite E in Hin. contradiction.
Qed.

(** ** Grid reconstruction: line snapping *)

Lemma length_pair_midpoints (xs : list Z) :
  (2 * List.length (pair_midpoints xs) <= List.length xs)%nat.
Proof.
  enough (H : forall n (ys : list Z), (List.length ys <= n)%nat ->
                (2 * List.length (pair_midpoints ys) <= List.length ys)%nat)
    by (apply (H (List.length xs)); lia).
  induction n as [|n IH]; intros ys Hn.
  - destruct ys; simpl in *; lia.
  - destruct ys as [|a [|b rest]]; simpl in *; try lia.
    specialize (IH rest). lia.
Qed.

(** The loop of the snapping block takes the pairs at indices 0-1, 2-3, ...
    of the sorted list it indexes. *)
Lemma snap_loop_pairs (lines : list Z) :
  forall k s acc,
    (2 * (s + k) <= List.length lines)%nat ->
    for_each (fun lines_merged i =>
                a <- getitem lines (2 * i) ;;
                b <- getitem lines (2 * i + 1) ;;
                Ok (lines_merged ++ [(a + b) / 2]))
             (seq s k) acc
    = Ok (acc ++ pair_midpoints (firstn (2 * k) (skipn (2 * s) lines))).
Proof.
  induction k as [|k IH]; intros s acc Hlen.
  - simpl. now rewrite app_nil_r.
  - cbn [seq for_each].
    destruct (skipn (2 * s) lines) as [|a [|b rest]] eqn:E.
    + apply (f_equal (@List.length Z)) in E.
      rewrite length_skipn in E. simpl in E. lia.
    + apply (f_equal (@List.length Z)) in E.
      rewrite length_skipn in E. simpl in E. lia.
    + assert (Ha : nth_error lines (2 * s) = Some a).
      { rewrite <- (Nat.add_0_r (2 * s)), <- nth_error_skipn, E.
        reflexivity. }
      assert (Hb : nth_error lines (2 * s + 1) = Some b).
      { rewrite <- nth_error_skipn, E. reflexivity. }
      rewrite (getitem_Ok _ _ _ Ha). cbn [bind].
      rewrite (getitem_Ok _ _ _ Hb). cbn [bind].
      rewrite IH by lia.
      replace (2 * S s)%nat with (2 + 2 * s)%nat by lia.
      rewrite <- skipn_skipn, E.
      replace (2 * S k)%nat with (S (S (2 * k))) by lia.
      cbn [skipn firstn pair_midpoints].
      rewrite <- app_assoc. reflexivity.
Qed.

(** [snap_lines] in closed form: it raises on an empty list and otherwise
    returns the sorted set of the first edge, the last edge and the midpoints
    of the pairs at indices 0-1, 2-3, ... *)
Lemma snap_lines_closed_form (lines : list Z) :
  snap_lines lines =
  match sorted Z.leb lines with
  | [] => Raise IndexError
  | first :: rest =>
      Ok (sorted_set
            ([first; last (first :: rest) 0]
             ++ pair_midpoints
                  (firstn (2 * ((List.length (first :: rest) - 2) / 2))
                          (first :: rest))))
  end.
Proof.
  unfold snap_lines.
  destruct (sorted Z.leb lines) as [|first rest] eqn:E; [reflexivity|].
  change (getitem (first :: rest) 0) with (Ok first). cbn [bind].
  rewrite (getitem_last_Ok rest first 0). cbn [bind].
  rewrite length_slice_1_m1.
  rewrite snap_loop_pairs.
  - cbn [bind skipn Nat.mul]. reflexivity.
  - pose proof (Nat.Div0.mul_div_le (List.length (first :: rest) - 2) 2). lia.
Qed.

Lemma snap_lines_Ok (x : Z) (xs : list Z) :
  exists s, snap_lines (x :: xs) = Ok s.
Proof.
  rewrite snap_lines_closed_form.
  destruct (sorted Z.leb (x :: xs)) as [|first rest] eqn:E.
  - apply (f_equal (@List.length Z)) in E.
    rewrite length_sorted in E. discriminate.
  - eexists. reflexivity.
Qed.

Lemma snap_lines_sorted_nodup (lines s : list Z) :
  snap_lines lines = Ok s -> Sorted Z.le s /\ NoDup s /\ s <> [].
Proof.
  rewrite snap_lines_closed_form.
  destruct (sorted Z.leb lines) as [|first rest]; [discriminate|].
  intros [= <-].
  split; [apply sorted_set_Sorted|].
  split; [apply sorted_set_NoDup | apply sorted_set_nonempty].
Qed.

Lemma snap_lines_length (lines s : list Z) :
  snap_lines lines = Ok s ->
  (List.length s <= 2 + (List.length lines - 2) / 2)%nat.
Proof.
  rewrite snap_lines_closed_form.
  destruct (sorted Z.leb lines) as [|first rest] eqn:E; [discriminate|].
  assert (Hlen : List.length (first :: rest) = List.length lines)
    by (rewrite <- E; apply length_sorted).
  remember (first :: rest) as sorted_lines eqn:EL.
  intros Heq. apply Ok_inj in Heq. subst s.
  eapply Nat.le_trans; [apply length_sorted_set_le|].
  rewrite length_app, Hlen.
  pose proof (length_pair_midpoints
                (firstn (2 * ((List.length lines - 2) / 2)) sorted_lines))
    as Hp.
  rewrite length_firstn in Hp. cbn [List.length]. lia.
Qed.

(** C1 (code defect).  On two column bands [0,10] and [10,20] the snapping
    block of [bordered_to_struct] returns the edges 0, 5, 20: it pairs the
    sorted edges at indices 0-1, so the midpoint is that of the first band.
    The reference of the claim pairs the interior edges at indices 1-2 and
    gives 0, 10, 20.  [bordered_to_struct] hands the edges 0, 5, 20 to the
    grid construction. *)
Theorem snap_lines_pairs_from_index_0 :
  band_edges top_left_x bottom_right_x (tbl_cols two_columns) = [0; 10; 10; 20]
  /\ snap_lines (band_edges top_left_x bottom_right_x (tbl_cols two_columns))
     = Ok [0; 5; 20]
  /\ snap_lines_spec (band_edges top_left_x bottom_right_x (tbl_cols two_columns))
     = Ok [0; 10; 20]
  /\ forall services : Collaborators,
       @bordered_to_struct services two_columns
       = Ok (reconstruct_table_from_grid (find_grid_table [0; 5] [0; 5; 20]) []).
Proof.
  split; [reflexivity|]. split; [reflexivity|]. split; [reflexivity|].
  intros services. reflexivity.
Qed.

(** C8, as stated, fails: snapping the edges 0, 10, 10, 20 gives 0, 5, 20, and
    snapping 0, 5, 20 again gives 0, 20.  With the pairing of the
    specification the first snap gives 0, 10, 20 and the second 0, 20. *)
Lemma snap_lines_not_idempotent :
  snap_lines [0; 10; 10; 20] = Ok [0; 5; 20]
  /\ snap_lines [0; 5; 20] = Ok [0; 20]
  /\ snap_lines_spec [0; 10; 10; 20] = Ok [0; 10; 20]
  /\ snap_lines_spec [0; 10; 20] = Ok [0; 20].
Proof. repeat (split; [reflexivity|]). reflexivity. Qed.

(** A snap that returns sorted duplicate-free lists, shortens every list of
    three or more edges, and leaves one edge and two increasing edges alone,
    has exactly the lists of at most two edges as the fixed points among its
    outputs. *)
Section FixedPoints.
Variable snap : list Z -> res (list Z).
Hypothesis snap_sorted_nodup :
  forall lines s, snap lines = Ok s -> Sorted Z.le s /\ NoDup s /\ s <> [].
Hypothesis snap_length :
  forall lines s, snap lines = Ok s ->
                  (List.length s <= 2 + (List.length lines - 2) / 2)%nat.
Hypothesis snap_one : forall a, snap [a] = Ok [a].
Hypothesis snap_two : forall a b, a < b -> snap [a; b] = Ok [a; b].

Lemma snap_fixed_iff (lines s : list Z) :
  snap lines = Ok s ->
  (snap s = Ok s <-> (List.length s <= 2)%nat).
Proof.
  intros Hs.
  destruct (snap_sorted_nodup _ _ Hs) as (Hsorted & Hnodup & Hne).
  split.
  - intros Hfix. apply snap_length in Hfix.
    destruct (le_lt_dec (List.length s) 2) as [Hle|Hgt]; [exact Hle|].
    exfalso.
    pose proof (Nat.Div0.mul_div_le (List.length s - 2) 2). lia.
  - intros Hlen.
    destruct s as [|a [|b [|c rest]]]; simpl in Hlen; try lia.
    + contradiction.
    + apply snap_one.
    + apply snap_two.
      inversion Hsorted as [|? ? _ Hhd]; subst.
      inversion Hhd; subst.
      inversion Hnodup as [|? ? Hnot _]; subst.
      assert (a <> b) by (intros ->; apply Hnot; left; reflexivity).
      lia.
Qed.

End FixedPoints.

Lemma snap_lines_one (a : Z) : snap_lines [a] = Ok [a].
Proof.
  unfold snap_lines, sorted_set. simpl.
  destruct (Z.eq_dec a a); [reflexivity | contradiction].
Qed.

Lemma snap_lines_two (a b : Z) : a < b -> snap_lines [a; b] = Ok [a; b].
Proof.
  intros Hab. unfold snap_lines, sorted_set. simpl.
  destruct (Z.leb_spec a b); [|lia]. simpl.
  destruct (Z.eq_dec b a); [lia|]. simpl.
  destruct (Z.leb_spec a b); [reflexivity | lia].
Qed.

(** C8 (amended).  For every list of band edges on which the snap returns an
    edge list, snapping that edge list again returns it unchanged if and only
    if it has at most two edges. *)
Theorem snap_lines_fixed_iff (lines s : list Z) :
  snap_lines lines = Ok s ->
  (snap_lines s = Ok s <-> (List.length s <= 2)%nat).
Proof.
  apply (snap_fixed_iff snap_lines).
  - apply snap_lines_sorted_nodup.
  - apply snap_lines_length.
  - apply snap_lines_one.
  - apply snap_lines_two.
Qed.

(** C8 at the edges 0, 10, 10, 20: the snapped list has three edges and is
    not a fixed point. *)
Lemma snap_lines_fixed_iff_witness :
  snap_lines [0; 10; 10; 20] = Ok [0; 5; 20]
  /\ (snap_lines [0; 5; 20] = Ok [0; 5; 20] <-> (3 <= 2)%nat).
Proof.
  split; [reflexivity|].
  apply (snap_lines_fixed_iff [0; 10; 10; 20] [0; 5; 20]). reflexivity.
Defined.

(** The same holds with the pairing of the specification. *)
Lemma snap_lines_spec_closed_form (lines : list Z) :
  snap_lines_spec lines =
  match sorted Z.leb lines with
  | [] => Raise IndexError
  | first :: rest =>
      Ok (sorted_set ([first; last (first :: rest) 0]
                      ++ pair_midpoints (slice_1_m1 (first :: rest))))
  end.
Proof.
  unfold snap_lines_spec.
  destruct (sorted Z.leb lines) as [|first rest]; [reflexivity|].
  change (getitem (first :: rest) 0) with (Ok first). cbn [bind].
  rewrite (getitem_last_Ok rest first 0). reflexivity.
Qed.

Lemma snap_lines_spec_fixed_iff (lines s : list Z) :
  snap_lines_spec lines = Ok s ->
  (snap_lines_spec s = Ok s <-> (List.length s <= 2)%nat).
Proof.
  apply (snap_fixed_iff snap_lines_spec).
  - intros l t. rewrite snap_lines_spec_closed_form.
    destruct (sorted Z.leb l) as [|first rest]; [discriminate|].
    intros Heq. apply Ok_inj in Heq. subst t.
    split; [apply sorted_set_Sorted|].
    split; [apply sorted_set_NoDup | apply sorted_set_nonempty].
  - intros l t. rewrite snap_lines_spec_closed_form.
    destruct (sorted Z.leb l) as [|first rest] eqn:E; [discriminate|].
    assert (Hlen : List.length (first :: rest) = List.length l)
      by (rewrite <- E; apply length_sorted).
    remember (first :: rest) as sorted_lines eqn:EL.
    intros Heq. apply Ok_inj in Heq. subst t.
    eapply Nat.le_trans; [apply length_sorted_set_le|].
    rewrite length_app.
    pose proof (length_pair_midpoints (slice_1_m1 sorted_lines)) as Hp.
    rewrite length_slice_1_m1, Hlen in Hp. cbn [List.length].
    assert ((List.length (pair_midpoints (slice_1_m1 sorted_lines))
             <= (List.length l - 2) / 2)%nat)
      by (apply Nat.div_le_lower_bound; lia).
    lia.
  - intros a. unfold snap_lines_spec, sorted_set. simpl.
    destruct (Z.eq_dec a a); [reflexivity | contradiction].
  - intros a b Hab. unfold snap_lines_spec, sorted_set. simpl.
    destruct (Z.leb_spec a b); [|lia]. simpl.
    destruct (Z.eq_dec b a); [lia|]. simpl.
    destruct (Z.leb_spec a b); [reflexivity | lia].
Qed.

(** The snapping block on every input: it raises [IndexError] on an empty
    edge list, and otherwise returns the sorted set of the first edge, the
    last edge and the midpoints of the pairs found at indices 0-1, 2-3, ...
    of the sorted list, one pair for every two interior edges. *)
Theorem snap_lines_behaviour (lines : list Z) :
  match lines with
  | [] => snap_lines lines = Raise IndexError
  | _ :: _ =>
      let sorted_lines := sorted Z.leb lines in
      let pairs := ((List.length lines - 2) / 2)%nat in
      snap_lines lines
      = Ok (sorted_set (hd 0 sorted_lines
                        :: last sorted_lines 0
                        :: pair_midpoints (firstn (2 * pairs) sorted_lines)))
  end.
Proof.
  destruct lines as [|x xs]; [reflexivity|].
  cbv zeta. rewrite snap_lines_closed_form.
  pose proof (length_sorted Z.leb (x :: xs)) as Hlen.
  destruct (sorted Z.leb (x :: xs)) as [|first rest]; [discriminate|].
  rewrite Hlen. reflexivity.
Qed.

Lemma length_band_edges (lo hi : BorderBox -> Z) (bands : list Band) :
  List.length (band_edges lo hi bands) = (2 * List.length bands)%nat.
Proof.
  unfold band_edges. induction bands as [|b bands IH]; [reflexivity|].
  cbn [flat_map app List.length]. rewrite IH. lia.
Qed.

(** The lattice of a non-empty list of bands: the snap returns, with at most
    one line more than there are bands. *)
Lemma snap_lines_band_edges (lo hi : BorderBox -> Z) (b : Band)
  (bands : list Band) :
  exists lines,
    snap_lines (band_edges lo hi (b :: bands)) = Ok lines
    /\ (List.length lines <= S (List.length (b :: bands)))%nat.
Proof.
  destruct (snap_lines_Ok (lo (band_bbox b))
              (hi (band_bbox b) :: band_edges lo hi bands)) as [lines Hlines].
  exists lines. split; [exact Hlines|].
  apply snap_lines_length in Hlines.
  change (lo (band_bbox b) :: hi (band_bbox b) :: band_edges lo hi bands)
    with (band_edges lo hi (b :: bands)) in Hlines.
  rewrite length_band_edges in Hlines.
  replace (2 * List.length (b :: bands) - 2)%nat
    with (List.length bands * 2)%nat in Hlines by (cbn [List.length]; lia).
  rewrite Nat.div_mul in Hlines by discriminate.
  cbn [List.length] in *. lia.
Qed.

(** [bordered_to_struct] raises [IndexError] on a table with no column band
    or no row band.  On every other table it returns the grid construction
    applied to the lattice of the snapped row edges and the snapped column
    edges (in this order) and to the cells of the row bands; a table of [n]
    column bands and [m] row bands gets at most [n + 1] column lines and
    [m + 1] row lines. *)
Theorem bordered_to_struct_total (services : Collaborators)
  (bordered_table : Table) :
  match tbl_cols bordered_table, tbl_rows bordered_table with
  | _ :: _, _ :: _ =>
      exists v_lines h_lines,
        snap_lines (band_edges top_left_x bottom_right_x
                               (tbl_cols bordered_table)) = Ok v_lines
        /\ snap_lines (band_edges top_left_y bottom_right_y
                                  (tbl_rows bordered_table)) = Ok h_lines
        /\ (List.length v_lines
            <= S (List.length (tbl_cols bordered_table)))%nat
        /\ (List.length h_lines
            <= S (List.length (tbl_rows bordered_table)))%nat
        /\ bordered_to_struct bordered_table
           = Ok (reconstruct_table_from_grid
                   (find_grid_table h_lines v_lines)
                   (flat_map objs (tbl_rows bordered_table)))
  | _, _ => bordered_to_struct bordered_table = Raise IndexError
  end.
Proof.
  unfold bordered_to_struct.
  destruct (tbl_cols bordered_table) as [|c cs].
  - destruct (tbl_rows bordered_table); reflexivity.
  - destruct (snap_lines_band_edges top_left_x bottom_right_x c cs)
      as (v_lines & Hv & Hvlen).
    destruct (tbl_rows bordered_table) as [|r rs].
    + rewrite Hv. reflexivity.
    + destruct (snap_lines_band_edges top_left_y bottom_right_y r rs)
        as (h_lines & Hh & Hhlen).
      exists v_lines, h_lines. rewrite Hv, Hh.
      repeat split; assumption.
Qed.

(** ** Digit density *)

Lemma append_empty_r (s : string) : String.append s "" = s.
Proof. induction s as [|c s IH]; simpl; [reflexivity | now rewrite IH]. Qed.

Lemma concat_empty_cons (x : string) (xs : list string) :
  String.concat "" (x :: xs) = String.append x (String.concat "" xs).
Proof.
  destruct xs as [|y ys]; simpl; [now rewrite append_empty_r | reflexivity].
Qed.

Lemma list_ascii_of_string_append (s1 s2 : string) :
  list_ascii_of_string (String.append s1 s2)
  = list_ascii_of_string s1 ++ list_ascii_of_string s2.
Proof. induction s1 as [|c s1 IH]; simpl; [reflexivity | now rewrite IH]. Qed.

Lemma length_list_ascii_of_string (s : string) :
  List.length (list_ascii_of_string s) = String.length s.
Proof. induction s as [|c s IH]; simpl; [reflexivity | now rewrite IH]. Qed.

Lemma digits_in_append (s1 s2 : string) :
  digits_in (String.append s1 s2) = digits_in s1 + digits_in s2.
Proof.
  unfold digits_in.
  rewrite list_ascii_of_string_append, filter_app, length_app. lia.
Qed.

Lemma length_append (s1 s2 : string) :
  Z.of_nat (String.length (String.append s1 s2))
  = Z.of_nat (String.length s1) + Z.of_nat (String.length s2).
Proof.
  rewrite <- !length_list_ascii_of_string, list_ascii_of_string_append,
    length_app.
  lia.
Qed.

(** The character loop counts the digits of the sentence. *)
Lemma count_loop (chars : list ascii) (count : Z) :
  fold_left (fun count char => if is_cipher char then count + 1 else count)
            chars count
  = count + Z.of_nat (List.length (filter is_cipher chars)).
Proof.
  revert count. induction chars as [|c chars IH]; intros count; simpl.
  - lia.
  - rewrite IH. destruct (is_cipher c); simpl List.length; lia.
Qed.

(** The cell loop leaves the digit count and the character count of the
    concatenated text in the two counters. *)
Lemma cnt_ciphers_loop (cs : list Cell) (count all_chars_count : Z) :
  fold_left cnt_ciphers_cell cs (count, all_chars_count)
  = (count + digits_in (all_text cs),
     all_chars_count + Z.of_nat (String.length (all_text cs))).
Proof.
  revert count all_chars_count.
  induction cs as [|c cs IH]; intros count all_chars_count.
  - unfold all_text, digits_in. simpl. f_equal; lia.
  - cbn [fold_left]. unfold cnt_ciphers_cell at 2.
    rewrite IH, count_loop.
    unfold all_text. cbn [map]. rewrite concat_empty_cons.
    rewrite digits_in_append, length_append.
    unfold digits_in at 2. f_equal; lia.
Qed.

Lemma cnt_ciphers_counts_eq (cs : list Cell) :
  cnt_ciphers_counts cs
  = (digits_in (all_text cs), Z.of_nat (String.length (all_text cs))).
Proof. unfold cnt_ciphers_counts. rewrite cnt_ciphers_loop. reflexivity. Qed.

Lemma cnt_ciphers_density (cs : list Cell) : cnt_ciphers cs = Ok (density cs).
Proof.
  unfold cnt_ciphers, density. rewrite cnt_ciphers_counts_eq.
  unfold truediv.
  destruct (String.length (all_text cs)) as [|n]; reflexivity.
Qed.

(** C9.  [cnt_ciphers] returns a value on every cell list and never raises:
    0 when the concatenated text has no character, and otherwise the number of
    digit characters divided by the number of characters. *)
Theorem cnt_ciphers_total (cs : list Cell) :
  cnt_ciphers cs
  = Ok (if (String.length (all_text cs) =? 0)%nat then 0
        else inject_Z (digits_in (all_text cs))
             / inject_Z (Z.of_nat (String.length (all_text cs))))%Q.
Proof.
  unfold cnt_ciphers. rewrite cnt_ciphers_counts_eq.
  unfold truediv.
  destruct (String.length (all_text cs)) as [|n]; [reflexivity|].
  reflexivity.
Qed.

(** C2 (code defect).  On rows with digit densities 1/2, 0, 1/4 and 1 the
    header of [actualize_header] is the first three rows: the third row's 1/4
    is compared with the first row's 1/2, because [current_ciphers] keeps the
    first row's density.  Compared with the previous accepted row's density 0,
    as the claim states it, the third row stops the scan and the header is the
    first two rows. *)
Theorem actualize_header_compares_with_first_row :
  map (fun r => cnt_ciphers (map cell r)) (rows density_table)
  = [Ok (1 # 2); Ok (0 # 2); Ok (1 # 4); Ok (2 # 2)]
  /\ actualize_header density_table
     = Ok (from_structured_and_rows density_table
             [text_row "a1"; text_row "ab"; text_row "abc1"])
  /\ actualize_header_spec density_table
     = Ok (from_structured_and_rows density_table
             [text_row "a1"; text_row "ab"]).
Proof. split; [reflexivity | split; reflexivity]. Qed.

(** The scan of [actualize_header] accepts the rows that follow row 0 for as
    long as their density is at most the density [current_ciphers] it was
    started with. *)
Lemma header_scan_closed_form (current_ciphers : Q)
  (rest : list (list CellLinked)) :
  forall header_candidates,
    header_scan current_ciphers rest header_candidates
    = Ok (header_candidates
          ++ take_while (fun r => Qle_bool (density (map cell r)) current_ciphers)
                        rest).
Proof.
  induction rest as [|r rest IH]; intros header_candidates.
  - simpl. now rewrite app_nil_r.
  - cbn [header_scan take_while]. rewrite cnt_ciphers_density. cbn [bind].
    unfold Qgtb.
    destruct (Qle_bool (density (map cell r)) current_ciphers); cbn [negb].
    + rewrite IH, <- app_assoc. reflexivity.
    + now rewrite app_nil_r.
Qed.

(** [actualize_header] on every table: it raises [IndexError] on a table with
    no row; otherwise it accepts row 0 and then the following rows for as long
    as their digit density is at most the digit density of row 0, and returns
    the accepted rows as header unless they are all the rows, in which case
    the header is empty. *)
Theorem actualize_header_behaviour (table : StructuredTable) :
  actualize_header table =
  match rows table with
  | [] => Raise IndexError
  | row0 :: rest =>
      let accepted :=
        row0 :: take_while (fun r => Qle_bool (density (map cell r))
                                              (density (map cell row0)))
                           rest in
      Ok (if (List.length accepted <? List.length (rows table))%nat
          then from_structured_and_rows table accepted
          else {| sth_bbox := st_bbox table;
                  sth_cells := cells table;
                  header := [] |})
  end.
Proof.
  unfold actualize_header.
  destruct (rows table) as [|row0 rest]; [reflexivity|].
  change (getitem (row0 :: rest) 0) with (Ok row0). cbn [bind tl].
  rewrite cnt_ciphers_density. cbn [bind].
  rewrite header_scan_closed_form. cbn [bind app].
  destruct (_ <? _)%nat; reflexivity.
Qed.

(** ** Text reconciliation *)

Section TextReconciliationFacts.
Context `{BoxOps}.

(** The inner loop of the first loop: one merged field per paddle field that
    contains the poppler field, and the flag says whether there was one. *)
Lemma merge_pop_pad_loop (pop_t_b : TextField) (paddle_t_b : list TextField) :
  forall merged_t_b merged,
    fold_left (merge_pop_pad pop_t_b) paddle_t_b (merged_t_b, merged)
    = (merged_t_b
       ++ map (fun pad_t_b => {| bbox := merge (bbox pad_t_b) (bbox pop_t_b);
                                 text := text pop_t_b |})
              (filter (fun pad_t_b => inside0 pop_t_b pad_t_b) paddle_t_b),
       merged || existsb (fun pad_t_b => inside0 pop_t_b pad_t_b) paddle_t_b).
Proof.
  induction paddle_t_b as [|pad rest IH]; intros merged_t_b merged.
  - simpl. now rewrite app_nil_r, orb_false_r.
  - cbn [fold_left filter existsb]. unfold merge_pop_pad at 2.
    fold (inside0 pop_t_b pad).
    destruct (inside0 pop_t_b pad).
    + rewrite IH. cbn [map orb]. rewrite <- app_assoc, orb_true_r.
      reflexivity.
    + rewrite IH. reflexivity.
Qed.

Lemma merge_pop_loop (paddle_t_b poppler_t_b : list TextField) :
  forall merged_t_b not_matched,
    fold_left (merge_pop paddle_t_b) poppler_t_b (merged_t_b, not_matched)
    = (merged_t_b ++ merged_fields_of paddle_t_b poppler_t_b,
       not_matched ++ unmatched_from_B paddle_t_b poppler_t_b).
Proof.
  induction poppler_t_b as [|pop rest IH]; intros merged_t_b not_matched.
  - simpl. now rewrite !app_nil_r.
  - cbn [fold_left]. unfold merge_pop at 2.
    rewrite merge_pop_pad_loop. cbn [orb].
    unfold merged_fields_of, unmatched_from_B. cbn [flat_map filter].
    destruct (existsb (fun pad_t_b => inside0 pop pad_t_b) paddle_t_b);
      cbn [negb]; rewrite IH; unfold merged_fields_of, unmatched_from_B;
      rewrite <- !app_assoc; reflexivity.
Qed.

Lemma exists_loop (pad_t_b : TextField) (merged_t_b : list TextField) :
  forall exists_,
    fold_left (fun exists_ mer_t_b =>
                 if box_is_inside_another (bbox mer_t_b) (bbox pad_t_b)
                                          (Some 0%Q)
                 then true else exists_)
              merged_t_b exists_
    = exists_ || existsb (fun mer_t_b => inside0 mer_t_b pad_t_b) merged_t_b.
Proof.
  induction merged_t_b as [|mer rest IH]; intros exists_.
  - simpl. now rewrite orb_false_r.
  - cbn [fold_left existsb]. rewrite IH.
    fold (inside0 mer pad_t_b).
    destruct (inside0 mer pad_t_b); [now rewrite orb_true_r | reflexivity].
Qed.

Lemma keep_pad_loop (merged_t_b paddle_t_b : list TextField) :
  forall not_matched,
    fold_left (keep_pad merged_t_b) paddle_t_b not_matched
    = not_matched ++ unmatched_from_A paddle_t_b merged_t_b.
Proof.
  induction paddle_t_b as [|pad rest IH]; intros not_matched.
  - simpl. now rewrite app_nil_r.
  - cbn [fold_left]. unfold keep_pad at 2. rewrite exists_loop. cbn [orb].
    unfold unmatched_from_A. cbn [filter].
    destruct (existsb (fun mer_t_b => inside0 mer_t_b pad) merged_t_b);
      cbn [negb]; rewrite IH; unfold unmatched_from_A;
      [reflexivity | rewrite <- app_assoc; reflexivity].
Qed.

(** The sweep of [merge_closest_text_fields] from a state whose accumulator
    is set. *)
Lemma merge_closest_loop (rest : list TextField) :
  forall curr_field merged_fields,
    (let '(curr, merged) :=
       fold_left merge_closest_step rest (Some curr_field, merged_fields) in
     match curr with
     | Some c => merged ++ [c]
     | None => merged
     end)
    = merged_fields ++ sweep_spec curr_field rest.
Proof.
  induction rest as [|f rest IH]; intros curr_field merged_fields.
  - reflexivity.
  - cbn [fold_left sweep_spec]. unfold merge_closest_step at 2.
    destruct (close_to curr_field f).
    + apply IH.
    + rewrite IH, <- app_assoc. reflexivity.
Qed.

(** [merge_closest_text_fields] on every input: the sweep of the
    specification, run on the sorted fields with the first of them fed to it
    a second time. *)
Theorem merge_closest_text_fields_behaviour (text_fields : list TextField) :
  merge_closest_text_fields text_fields
  = match sorted top_left_leb text_fields with
    | [] => []
    | f :: rest => sweep_spec f (f :: rest)
    end.
Proof.
  unfold merge_closest_text_fields.
  destruct (sorted top_left_leb text_fields) as [|f rest]; [reflexivity|].
  cbn [fold_left sweep_spec]. unfold merge_closest_step at 2.
  destruct (close_to f f).
  - apply (merge_closest_loop rest (join_fields f f) []).
  - apply (merge_closest_loop rest f [f]).
Qed.

(** C6 (amended).  [merge_text_fields A B] is exactly: one merged field (the
    merge of the two boxes, with B's text) for every pair of a B field and an
    A field that contains it at tolerance 0, B field by B field; then every B
    field that no A field contains; then every A field that contains, at
    tolerance 0, no emitted merged field.  The fields of the last two parts
    are passed through unchanged, so none of them is dropped. *)
Theorem merge_text_fields_parts (paddle_t_b poppler_t_b : list TextField) :
  merge_text_fields paddle_t_b poppler_t_b
  = merged_fields_of paddle_t_b poppler_t_b
    ++ unmatched_from_B paddle_t_b poppler_t_b
    ++ unmatched_from_A paddle_t_b (merged_fields_of paddle_t_b poppler_t_b)
  /\ (forall pop_t_b,
        List.length (merged_fields_of paddle_t_b [pop_t_b])
        = List.length (filter (fun pad_t_b => inside0 pop_t_b pad_t_b)
                              paddle_t_b))
  /\ (forall f,
        In f (unmatched_from_B paddle_t_b poppler_t_b)
        \/ In f (unmatched_from_A paddle_t_b
                                  (merged_fields_of paddle_t_b poppler_t_b)) ->
        In f (merge_text_fields paddle_t_b poppler_t_b)).
Proof.
  assert (Hparts :
            merge_text_fields paddle_t_b poppler_t_b
            = merged_fields_of paddle_t_b poppler_t_b
              ++ unmatched_from_B paddle_t_b poppler_t_b
              ++ unmatched_from_A paddle_t_b
                   (merged_fields_of paddle_t_b poppler_t_b)).
  { unfold merge_text_fields.
    rewrite merge_pop_loop. cbn [app].
    rewrite keep_pad_loop. reflexivity. }
  split; [exact Hparts|]. split.
  - intros pop_t_b. unfold merged_fields_of. cbn [flat_map].
    now rewrite app_nil_r, length_map.
  - intros f Hf. rewrite Hparts, !in_app_iff. tauto.
Qed.

End TextReconciliationFacts.

(** C6, as stated, fails.  A paddle field nested in another paddle field, and
    a poppler field inside the outer one only: the inner paddle field contains
    no merged field and the code passes it through, while it is contained in
    the merged field and the stated result leaves it out. *)
Lemma merge_text_fields_keeps_nested_field :
  @merge_text_fields spec_box_ops [paddle_outer; paddle_inner] [poppler_word]
  = [mkTextField (mkBorderBox 0 0 100 100) "word"; paddle_inner]
  /\ @merge_text_fields_spec spec_box_ops [paddle_outer; paddle_inner]
                             [poppler_word]
     = [mkTextField (mkBorderBox 0 0 100 100) "word"].
Proof. split; reflexivity. Qed.

(** C3 (code defect).  The first sorted field is compared with itself: a lone
    field 10 units wide comes back with its text doubled, and a lone field 30
    units wide comes back twice.  The specified sweep returns each of them
    unchanged. *)
Theorem merge_closest_first_field_against_itself :
  @merge_closest_text_fields spec_box_ops [narrow_field]
  = [mkTextField (mkBorderBox 0 0 10 10) "a a"]
  /\ @merge_closest_text_fields_spec spec_box_ops [narrow_field]
     = [narrow_field]
  /\ @merge_closest_text_fields spec_box_ops [wide_field]
     = [wide_field; wide_field]
  /\ @merge_closest_text_fields_spec spec_box_ops [wide_field]
     = [wide_field].
Proof. repeat (split; [reflexivity|]). reflexivity. Qed.

(** ** Header inference by the classifier *)

Lemma Qgtb_inject_Z_scaled (a b : Z) (p q : positive) :
  Qgtb (inject_Z a) ((Zpos p # q) * inject_Z b) = true
  <-> Zpos p * b < Zpos q * a.
Proof.
  unfold Qgtb. rewrite negb_true_iff, <- not_true_iff_false, Qle_bool_iff.
  unfold Qle, Qmult, inject_Z. cbn [Qnum Qden]. lia.
Qed.

Lemma Qgtb_inject_Z_div (a b : Z) (q : positive) :
  Qgtb (inject_Z a) (inject_Z b / inject_Z (Zpos q)) = true
  <-> b < Zpos q * a.
Proof.
  unfold Qgtb. rewrite negb_true_iff, <- not_true_iff_false, Qle_bool_iff.
  unfold Qle, Qdiv, Qmult, Qinv, inject_Z. cbn [Qnum Qden]. lia.
Qed.

Section HeaderFacts.
Context `{Collaborators}.

Lemma analyse_header_like (line : list CellLinked) :
  analyse line = true <-> header_like line.
Proof.
  unfold analyse, header_like. cbv zeta.
  rewrite Z.gtb_ltb.
  destruct (5 <? Z.of_nat (List.length line)).
  - apply (Qgtb_inject_Z_div _ _ 5).
  - apply (Qgtb_inject_Z_div _ _ 2).
Qed.

Lemma last_index_None {A : Type} (f : A -> bool) (xs : list A) :
  last_index f xs = None <-> forall x, In x xs -> f x = false.
Proof.
  induction xs as [|x rest IH]; simpl.
  - split; [intros _ y [] | reflexivity].
  - destruct (last_index f rest) as [k|].
    + split; [discriminate|]. intros Hall.
      destruct IH as [_ IH].
      discriminate (IH (fun y Hy => Hall y (or_intror Hy))).
    + destruct (f x) eqn:Ef.
      * split; [discriminate|]. intros Hall.
        rewrite (Hall x (or_introl eq_refl)) in Ef. discriminate.
      * split; [|reflexivity]. intros _ y [<-|Hy]; [exact Ef|].
        destruct IH as [IH _]. apply (IH eq_refl y Hy).
Qed.

Lemma last_index_Some {A : Type} (f : A -> bool) (d : A) (xs : list A) (k : nat) :
  last_index f xs = Some k <->
  (k < List.length xs)%nat /\ f (nth k xs d) = true
  /\ forall j, (k < j < List.length xs)%nat -> f (nth j xs d) = false.
Proof.
  revert k. induction xs as [|x rest IH]; intros k; simpl.
  - split; [discriminate | intros [Hk _]; lia].
  - destruct (last_index f rest) as [k'|] eqn:El.
    + specialize (IH k'). destruct IH as [IH _].
      destruct (IH eq_refl) as (Hlt & Hk' & Hafter).
      split.
      * intros [= <-]. split; [lia|]. split; [exact Hk'|].
        intros [|j] Hj; [lia|]. apply Hafter. lia.
      * intros (Hk & Hfk & Hnone). f_equal.
        destruct (Nat.lt_trichotomy k (S k')) as [Hc|[Hc|Hc]]; [|exact (eq_sym Hc)|].
        -- specialize (Hnone (S k')). simpl in Hnone.
           rewrite Hnone in Hk' by lia. discriminate.
        -- destruct k as [|k]; [lia|]. simpl in Hfk.
           rewrite Hafter in Hfk by lia. discriminate.
    + pose proof (proj1 (last_index_None f rest) El) as Hall.
      destruct (f x) eqn:Ef.
      * split.
        -- intros [= <-]. split; [lia|]. split; [exact Ef|].
           intros [|j] Hj; [lia|]. apply Hall. apply nth_In. lia.
        -- intros (Hk & Hfk & _). destruct k as [|k]; [reflexivity|].
           simpl in Hfk. rewrite Hall in Hfk; [discriminate|].
           apply nth_In. lia.
      * split; [discriminate|].
        intros (Hk & Hfk & _). destruct k as [|k].
        -- rewrite Ef in Hfk. discriminate.
        -- simpl in Hfk. rewrite Hall in Hfk; [discriminate|].
           apply nth_In. lia.
Qed.

(** The scan loop keeps every scanned line as a candidate and leaves the
    index of the last header-like line in [last_header]. *)
Lemma create_header_loop (lines : list (list CellLinked)) :
  forall s header_candidates last_header,
    fold_left create_header_step (combine (seq s (List.length lines)) lines)
              (header_candidates, last_header)
    = (header_candidates
       ++ map (fun '(idx, line) => (idx, analyse line, line))
              (combine (seq s (List.length lines)) lines),
       match last_index analyse lines with
       | Some k => Some (s + k)%nat
       | None => last_header
       end).
Proof.
  induction lines as [|line rest IH]; intros s header_candidates last_header.
  - simpl. now rewrite app_nil_r.
  - cbn [List.length seq combine fold_left map last_index].
    unfold create_header_step at 2.
    destruct (analyse line) eqn:Ea; rewrite IH, <- app_assoc; cbn [app];
      f_equal; destruct (last_index analyse rest) as [k|];
      try reflexivity; f_equal; lia.
Qed.

Lemma candidate_lines (lines : list (list CellLinked)) (s : nat) :
  map (fun '(idx, is_header, line) => line)
      (map (fun '(idx, line) => (idx, analyse line, line))
           (combine (seq s (List.length lines)) lines))
  = lines.
Proof.
  revert s. induction lines as [|line rest IH]; intros s; [reflexivity|].
  cbn [List.length seq combine map]. now rewrite IH.
Qed.

(** [create_header] in closed form. *)
Lemma create_header_closed_form (series : list (list CellLinked))
  (header_limit : nat) :
  fst (create_header series header_limit)
  = match last_index analyse (firstn header_limit series) with
    | None => []
    | Some k =>
        if 3 * Z.of_nat (List.length series) <? 4 * Z.of_nat (k + 1) then []
        else firstn (k + 1) series
    end.
Proof.
  unfold create_header, enumerate.
  rewrite create_header_loop. cbn [app Nat.add].
  destruct (last_index analyse (firstn header_limit series)) as [k|] eqn:El.
  - apply (last_index_Some analyse []) in El. destruct El as (Hk & _ & _).
    rewrite <- firstn_map, candidate_lines, firstn_firstn.
    rewrite length_firstn in Hk.
    replace (Nat.min (k + 1) header_limit) with (k + 1)%nat by lia.
    assert (Hlen : List.length (firstn (k + 1) series) = (k + 1)%nat)
      by (rewrite length_firstn; lia).
    rewrite Hlen.
    destruct (Qgtb _ _) eqn:Eq.
    + apply (Qgtb_inject_Z_scaled _ _ 3 4) in Eq.
      apply Z.ltb_lt in Eq. rewrite Eq. reflexivity.
    + destruct (Z.ltb_spec (3 * Z.of_nat (List.length series))
                           (4 * Z.of_nat (k + 1))) as [Hlt|Hge];
        [|reflexivity].
      apply (Qgtb_inject_Z_scaled _ _ 3 4) in Hlt. congruence.
  - destruct (Qgtb _ _); reflexivity.
Qed.

(** C7.  A line is header-like iff the count of its cells whose
    header-likelihood exceeds the body-likelihood is above a fifth of its
    length (above half of it, for a line of at most five cells).  Among the
    first [header_limit] lines, when none is header-like the header is empty;
    when line [k] is the last header-like one, the header is the lines 0 to
    [k], every line between included, unless these are more than 75% of all
    lines, and then it is empty.  The page processor scans 6 rows and 5
    columns; a 10-row table whose first six rows are header-like except row 3
    and row 5 gets the rows 0 to 4 as header. *)
Theorem create_header_last_header_like (series : list (list CellLinked))
  (header_limit : nat) :
  (forall line, analyse line = true <-> header_like line)
  /\ ((forall line, In line (firstn header_limit series) ->
                    analyse line = false) ->
      fst (create_header series header_limit) = [])
  /\ (forall k,
        (k < List.length (firstn header_limit series))%nat ->
        analyse (nth k series []) = true ->
        (forall j, (k < j < List.length (firstn header_limit series))%nat ->
                   analyse (nth j series []) = false) ->
        fst (create_header series header_limit)
        = if 3 * Z.of_nat (List.length series) <? 4 * Z.of_nat (k + 1) then []
          else firstn (k + 1) series)
  /\ (forall table,
        table_with_headers table
        = actualize_header_with_cols
            (from_structured_and_rows table (fst (create_header (rows table) 6)))
            (fst (create_header (cols table) 5)))
  /\ (List.length series = 10%nat ->
      map analyse (firstn 6 series) = [true; true; true; false; true; false] ->
      fst (create_header series 6) = firstn 5 series).
Proof.
  split; [apply analyse_header_like|].
  split.
  { intros Hnone. rewrite create_header_closed_form.
    apply last_index_None in Hnone. rewrite Hnone. reflexivity. }
  split.
  { intros k Hk Hfk Hafter. rewrite create_header_closed_form.
    assert (El : last_index analyse (firstn header_limit series) = Some k).
    { apply (last_index_Some analyse []). split; [exact Hk|].
      rewrite length_firstn in Hk.
      split.
      - rewrite nth_firstn.
        destruct (Nat.ltb_spec k header_limit); [exact Hfk | lia].
      - intros j Hj. rewrite nth_firstn.
        rewrite length_firstn in Hj.
        destruct (Nat.ltb_spec j header_limit); [|lia].
        apply Hafter. rewrite length_firstn. lia. }
    rewrite El. reflexivity. }
  split; [reflexivity|].
  intros Hlen Hflags. rewrite create_header_closed_form.
  assert (El : last_index analyse (firstn 6 series) = Some 4%nat).
  { assert (Hmap : forall (xs : list (list CellLinked)),
               last_index analyse xs = last_index (fun b => b) (map analyse xs)).
    { induction xs as [|x xs IH]; [reflexivity|]. simpl. now rewrite IH. }
    rewrite Hmap, Hflags. reflexivity. }
  rewrite El, Hlen. reflexivity.
Qed.

End HeaderFacts.

(** C7 on ten rows scored by a stand-in classifier. *)
Lemma create_header_last_header_like_witness :
  map (@analyse demo_collaborators) demo_series
  = [true; true; true; false; true; false; false; false; false; false]
  /\ fst (@create_header demo_collaborators demo_series 6)
     = firstn 5 demo_series.
Proof.
  split; [reflexivity|].
  apply (@create_header_last_header_like demo_collaborators demo_series 6);
    reflexivity.
Defined.

(** ** Table fusion *)

Lemma Qgeb_inject_Z_half (a b : Z) :
  Qgeb (inject_Z a) (inject_Z b * (1 # 2)) = true <-> b <= 2 * a.
Proof.
  unfold Qgeb. rewrite Qle_bool_iff.
  unfold Qle, Qmult, inject_Z. cbn [Qnum Qden]. lia.
Qed.


Lemma adopt_bordered_iff (bordered_score score bordered_cells : Z)
  (n_cells : nat) :
  adopt_bordered bordered_score score bordered_cells n_cells = true
  <-> score <= 2 * bordered_score /\ Z.of_nat n_cells <= 2 * bordered_cells.
Proof.
  unfold adopt_bordered.
  rewrite andb_true_iff, !Qgeb_inject_Z_half. reflexivity.
Qed.

Lemma list_remove_found {A : Type}
  (eq_dec : forall a b : A, {a = b} + {a <> b}) (f : A -> bool) (x : A)
  (xs : list A) :
  find f xs = Some x ->
  exists before after,
    xs = before ++ x :: after
    /\ (forall y, In y before -> f y = false)
    /\ list_remove eq_dec x xs = before ++ after.
Proof.
  induction xs as [|y rest IH]; [discriminate|]. simpl.
  destruct (f y) eqn:Ef.
  - intros [= ->]. exists [], rest.
    split; [reflexivity|]. split; [intros ? []|].
    destruct (eq_dec x x); [reflexivity | contradiction].
  - intros Hfind. destruct (IH Hfind) as (before & after & -> & Hb & Hr).
    destruct (eq_dec x y) as [->|Hne].
    + apply find_some in Hfind. destruct Hfind as [_ Hfx]. congruence.
    + exists (y :: before), after.
      split; [reflexivity|].
      split; [intros z [<-|Hz]; [exact Ef | apply Hb, Hz]|].
      simpl. now rewrite Hr.
Qed.

Section FusionFacts.
Context `{BoxOps} `{Collaborators}.


(** C5 (amended).  When a bordered table contains a pending candidate (the
    first one whose box is inside its box), the table that the cell-based
    construction returns for the bordered table
    ([semi_border_to_struct(bordered_table, img.shape)], not the line-snapped
    reconstruction [bordered_to_struct]) is put on the page in place of the
    candidate iff [bordered_score >= 0.5 * score] and
    [bordered cell count >= 0.5 * candidate cell count], the boundary
    included, and nothing is put on the page when that construction returns
    no table; otherwise the candidate itself is put on the page, unchanged;
    either way the candidate leaves the pending list, and only it.  With
    score 10 and 8 cells, a bordered score 5 with 4 cells adopts and a
    bordered score 4 does not. *)
Theorem bordered_adoption (img : Image) (st : BorderedState)
  (bordered_table : Table) (score : Z) (inf_table : StructuredTable) :
  find_candidate bordered_table (pending st) = Some (score, inf_table) ->
  let in_table :=
    fst (table_text_fields img (OfStructured inf_table) (st_bbox inf_table)
                           (bordered_pool st)) in
  let bordered_score := match_cells_table in_table bordered_table in
  let st' := process_bordered img st bordered_table in
  (score <= 2 * bordered_score
   /\ Z.of_nat (List.length (cells inf_table)) <= 2 * count_cells bordered_table ->
   page_tables st'
   = append_if (page_tables st)
               (semi_border_to_struct bordered_table (shape img)))
  /\ (~ (score <= 2 * bordered_score
         /\ Z.of_nat (List.length (cells inf_table))
            <= 2 * count_cells bordered_table) ->
      page_tables st' = page_tables st ++ [inf_table])
  /\ (exists before after,
        pending st = before ++ (score, inf_table) :: after
        /\ pending st' = before ++ after)
  /\ adopt_bordered 5 10 4 8 = true
  /\ adopt_bordered 4 10 4 8 = false.
Proof.
  intros Hfind. cbv zeta.
  assert (Hremoved : exists before after,
             pending st = before ++ (score, inf_table) :: after
             /\ list_remove candidate_eq_dec (score, inf_table) (pending st)
                = before ++ after).
  { destruct (list_remove_found candidate_eq_dec _ _ _ Hfind)
      as (before & after & E1 & _ & E2).
    exists before, after. split; assumption. }
  unfold process_bordered. rewrite Hfind.
  destruct (table_text_fields img (OfStructured inf_table) (st_bbox inf_table)
                              (bordered_pool st))
    as [in_table pool].
  cbn [fst].
  pose proof (adopt_bordered_iff
                (match_cells_table in_table bordered_table) score
                (count_cells bordered_table) (List.length (cells inf_table)))
    as Hiff.
  destruct (adopt_bordered _ _ _ _).
  - split; [intros _; reflexivity|].
    split; [intros Hnot; exfalso; apply Hnot, Hiff; reflexivity|].
    split; [exact Hremoved | split; reflexivity].
  - split; [intros Hcond; apply Hiff in Hcond; discriminate|].
    split; [intros _; reflexivity|].
    split; [exact Hremoved | split; reflexivity].
Qed.

(** C10.  When the learned detector returns no region, [process_page] returns
    the serialised page at once: its block list is empty whatever text the
    page holds, and neither the classical bordered detector nor the
    free-text extraction (nor any table build) is called. *)
Theorem process_page_without_regions (img : Image) (num : Z)
  (text_fields : list TextField) :
  inference_image img = [] ->
  process_page img num text_fields
  = Ok ({| d_page_num := num;
           d_page_bbox := {| d_left := 0; d_top := 0;
                             d_height := shape0 img; d_width := shape1 img |};
           d_blocks := [] |},
        []).
Proof.
  intros Hnone. unfold process_page. rewrite Hnone.
  unfold page_to_dict, page_blocks, bbox_to_dict, height, width.
  cbn [page_num page_bbox tables page_text map app
       top_left_x top_left_y bottom_right_x bottom_right_y].
  rewrite !Z.sub_0_r. reflexivity.
Qed.

(** The pairing of the text borders stays inside the list. *)
Lemma text_candidate_boxes_loop (img : Image) (text_borders : list Z) :
  forall k s boxes,
    (2 * (s + k) <= List.length text_borders)%nat ->
    exists boxes',
      for_each (fun boxes i =>
                  lo <- getitem text_borders (i * 2) ;;
                  hi <- getitem text_borders (i * 2 + 1) ;;
                  if hi - lo >? 3
                  then Ok (boxes ++ [{| top_left_x := 1;
                                        top_left_y := lo;
                                        bottom_right_x := shape1 img;
                                        bottom_right_y := hi |}])
                  else Ok boxes)
               (seq s k) boxes
      = Ok boxes'.
Proof.
  induction k as [|k IH]; intros s boxes Hlen.
  - eexists. reflexivity.
  - cbn [seq for_each].
    destruct (nth_error text_borders (s * 2)) as [lo|] eqn:Elo;
      [|apply nth_error_None in Elo; lia].
    destruct (nth_error text_borders (s * 2 + 1)) as [hi|] eqn:Ehi;
      [|apply nth_error_None in Ehi; lia].
    rewrite (getitem_Ok _ _ _ Elo). cbn [bind].
    rewrite (getitem_Ok _ _ _ Ehi). cbn [bind].
    destruct (hi - lo >? 3); cbn [bind]; apply IH; lia.
Qed.

(** Once the image, the page number and the text fields are there,
    [process_page] returns a serialised page with that number and the box of
    the image: no index of the text-border pairing is out of range. *)
Lemma process_page_returns (img : Image) (num : Z)
  (text_fields : list TextField) :
  exists blocks calls,
    process_page img num text_fields
    = Ok ({| d_page_num := num;
             d_page_bbox := {| d_left := 0; d_top := 0;
                               d_height := shape0 img; d_width := shape1 img |};
             d_blocks := blocks |},
          calls).
Proof.
  unfold process_page.
  destruct (inference_image img) as [|t ts].
  - eexists. eexists.
    unfold page_to_dict, bbox_to_dict, height, width.
    cbn [page_num page_bbox
         top_left_x top_left_y bottom_right_x bottom_right_y].
    rewrite !Z.sub_0_r. reflexivity.
  - destruct (reconcile_bordered _ _ _ _) as [page_tables calls].
    match goal with
    | |- context [text_candidate_boxes img ?tb] =>
        destruct (text_candidate_boxes_loop img tb (List.length tb / 2) 0 [])
          as [boxes Hboxes];
        [pose proof (Nat.Div0.mul_div_le (List.length tb) 2); lia|];
        unfold text_candidate_boxes; rewrite Hboxes
    end.
    cbn [bind].
    destruct (extract_text_blocks img boxes) as [texts text_calls].
    eexists. eexists.
    unfold page_to_dict, bbox_to_dict, height, width.
    cbn [page_num page_bbox
         top_left_x top_left_y bottom_right_x bottom_right_y].
    rewrite !Z.sub_0_r. reflexivity.
Qed.

End FusionFacts.


(** C5 on a candidate with score 10 and 8 cells inside a bordered table with
    score 5 and 4 cells: the boundary case adopts. *)
Lemma bordered_adoption_witness :
  page_tables
    (@process_bordered spec_box_ops demo_collaborators scan_image
                       pending_candidate demo_bordered)
  = [{| st_bbox := mkBorderBox 0 0 100 100;
        cells := map link_cell (flat_map objs (tbl_rows demo_bordered));
        rows := []; cols := [] |}]
  /\ pending
       (@process_bordered spec_box_ops demo_collaborators scan_image
                          pending_candidate demo_bordered)
     = [].
Proof.
  pose proof (@bordered_adoption spec_box_ops demo_collaborators scan_image
                pending_candidate demo_bordered 10 demo_candidate eq_refl)
    as (Hadopt & _ & _).
  split; [|reflexivity].
  apply Hadopt. split; vm_compute; discriminate.
Defined.

(** C5 as stated fails.  At the boundary case (score 10 and 8 cells against
    a bordered score 5 and 4 cells) the table put on the page is the one the
    cell-based construction returns, with every cell where that construction
    leaves it; the line-snapped reconstruction of the same bordered table
    places the cells in two lattice rows and is not consulted.  And when the
    cell-based construction returns no table, the candidate is neither
    replaced nor kept. *)
Lemma bordered_adoption_not_line_snapped :
  @find_candidate spec_box_ops demo_bordered (pending pending_candidate)
  = Some (10, demo_candidate)
  /\ @match_cells_table (builder_collaborators true) [] demo_bordered = 5
  /\ @count_cells (builder_collaborators true) demo_bordered = 4
  /\ @bordered_to_struct (builder_collaborators true) demo_bordered
     = Ok line_snapped_table
  /\ map row (cells line_snapped_table) = [0; 0; 1; 1; 1]
  /\ page_tables
       (@process_bordered spec_box_ops (builder_collaborators true)
                          scan_image pending_candidate demo_bordered)
     = [cell_built_table]
  /\ map row (cells cell_built_table) = [0; 0; 0; 0; 0]
  /\ page_tables
       (@process_bordered spec_box_ops (builder_collaborators false)
                          scan_image pending_candidate demo_bordered)
     = []
  /\ pending
       (@process_bordered spec_box_ops (builder_collaborators false)
                          scan_image pending_candidate demo_bordered)
     = [].
Proof. repeat split; vm_compute; reflexivity. Qed.

(** C10 on a page where the text recognition would read text everywhere. *)
Lemma process_page_without_regions_witness :
  @inference_image demo_collaborators blank_image = []
  /\ @te_extract_sparse demo_collaborators blank_image 1 1 99 199 = "text"
  /\ @process_page spec_box_ops demo_collaborators blank_image 7 []
     = Ok ({| d_page_num := 7;
              d_page_bbox := {| d_left := 0; d_top := 0;
                                d_height := 200; d_width := 100 |};
              d_blocks := [] |},
           []).
Proof.
  split; [reflexivity|]. split; [reflexivity|].
  apply (@process_page_without_regions spec_box_ops demo_collaborators
           blank_image 7 [] eq_refl).
Defined.

(** * Further properties *)

(** ** Sorting by a key *)

Section SortedBy.
Context {A : Type}.
Variable leb : A -> A -> bool.
Hypothesis leb_total : forall a b, leb a b = true \/ leb b a = true.
Hypothesis leb_trans :
  forall a b c, leb a b = true -> leb b c = true -> leb a c = true.

Lemma insert_sorted_by_Sorted (x : A) (xs : list A) :
  Sorted (le_of leb) xs -> Sorted (le_of leb) (insert_sorted leb x xs).
Proof.
  induction xs as [|y ys IH]; intros Hs; simpl.
  - repeat constructor.
  - destruct (leb x y) eqn:Exy.
    + constructor; [exact Hs | constructor; exact Exy].
    + assert (Hyx : leb y x = true)
        by (destruct (leb_total x y) as [E|E]; [congruence | exact E]).
      inversion Hs as [|? ? Hs' Hhd]; subst.
      constructor; [apply IH, Hs'|].
      destruct ys as [|z zs]; simpl.
      * constructor. exact Hyx.
      * destruct (leb x z); constructor; [exact Hyx|].
        inversion Hhd; subst. assumption.
Qed.

Lemma sorted_by_Sorted (xs : list A) : Sorted (le_of leb) (sorted leb xs).
Proof.
  induction xs as [|x xs IH]; simpl; [constructor|].
  apply insert_sorted_by_Sorted, IH.
Qed.

Lemma Sorted_by_head_least (x : A) (xs : list A) :
  Sorted (le_of leb) (x :: xs) -> forall y, In y xs -> leb x y = true.
Proof.
  intros Hs. apply Sorted_StronglySorted in Hs.
  - inversion Hs as [|? ? _ Hall]; subst.
    intros y Hy. rewrite Forall_forall in Hall. apply (Hall y Hy).
  - intros a b c. apply leb_trans.
Qed.

(** Two sorted lists with the same elements are equal, when the order
    separates the elements. *)
Lemma Sorted_by_unique (l1 l2 : list A) :
  Sorted (le_of leb) l1 -> Sorted (le_of leb) l2 -> Permutation l1 l2 ->
  (forall a b, In a l1 -> In b l1 ->
               leb a b = true -> leb b a = true -> a = b) ->
  l1 = l2.
Proof.
  revert l2. induction l1 as [|a l1 IH]; intros l2 H1 H2 Hp Hanti.
  - apply Permutation_nil in Hp. now subst.
  - destruct l2 as [|b l2];
      [apply Permutation_sym, Permutation_nil in Hp; discriminate|].
    assert (Hab : a = b).
    { assert (Hb : In b (a :: l1))
        by (eapply Permutation_in;
            [apply Permutation_sym, Hp | left; reflexivity]).
      assert (Ha : In a (b :: l2))
        by (eapply Permutation_in; [apply Hp | left; reflexivity]).
      destruct Hb as [Hb|Hb]; [exact Hb|].
      destruct Ha as [Ha|Ha]; [now subst|].
      apply Hanti; [left; reflexivity | right; exact Hb | |].
      - apply (Sorted_by_head_least a l1 H1 b Hb).
      - apply (Sorted_by_head_least b l2 H2 a Ha). }
    subst b. f_equal.
    apply IH.
    + inversion H1; assumption.
    + inversion H2; assumption.
    + apply (Permutation_cons_inv Hp).
    + intros x y Hx Hy. apply Hanti; right; assumption.
Qed.

Lemma sorted_by_perm (l1 l2 : list A) :
  Permutation l1 l2 ->
  (forall a b, In a l1 -> In b l1 ->
               leb a b = true -> leb b a = true -> a = b) ->
  sorted leb l1 = sorted leb l2.
Proof.
  intros Hp Hanti.
  apply Sorted_by_unique; try apply sorted_by_Sorted.
  - eapply perm_trans; [apply Permutation_sym, sorted_perm|].
    eapply perm_trans; [apply Hp | apply sorted_perm].
  - intros a b Ha Hb. apply Hanti.
    + eapply Permutation_in; [apply Permutation_sym, sorted_perm | exact Ha].
    + eapply Permutation_in; [apply Permutation_sym, sorted_perm | exact Hb].
Qed.

End SortedBy.

Lemma sorted_Z_perm (l1 l2 : list Z) :
  Permutation l1 l2 -> sorted Z.leb l1 = sorted Z.leb l2.
Proof.
  intros Hp. apply sorted_by_perm.
  - intros a b. rewrite !Z.leb_le. lia.
  - intros a b c. rewrite !Z.leb_le. lia.
  - exact Hp.
  - intros a b _ _. rewrite !Z.leb_le. lia.
Qed.

(** ** Grid reconstruction: what the snapped edges keep *)

Lemma sorted_set_In (x : Z) (xs : list Z) : In x (sorted_set xs) <-> In x xs.
Proof.
  unfold sorted_set. rewrite <- (nodup_In Z.eq_dec xs x).
  split; apply Permutation_in;
    [apply Permutation_sym, sorted_perm | apply sorted_perm].
Qed.

Lemma firstn_In {A : Type} (n : nat) (xs : list A) (x : A) :
  In x (firstn n xs) -> In x xs.
Proof.
  intros Hx. rewrite <- (firstn_skipn n xs). apply in_or_app. left. exact Hx.
Qed.

Lemma exists_last_In {A : Type} (x d : A) (xs : list A) :
  In (last (x :: xs) d) (x :: xs).
Proof.
  revert x. induction xs as [|y ys IH]; intros x; [left; reflexivity|].
  right. apply IH.
Qed.

Lemma Sorted_last_greatest (xs : list Z) (d : Z) :
  Sorted Z.le xs -> forall x, In x xs -> x <= last xs d.
Proof.
  induction xs as [|a xs IH]; intros Hs x Hx; [contradiction|].
  destruct xs as [|b xs].
  - destruct Hx as [<-|[]]. simpl. lia.
  - change (last (a :: b :: xs) d) with (last (b :: xs) d).
    inversion Hs as [|? ? Hs' Hhd]; subst.
    destruct Hx as [<-|Hx]; [|apply (IH Hs' x Hx)].
    inversion Hhd; subst.
    specialize (IH Hs' b (or_introl eq_refl)). lia.
Qed.

Lemma Sorted_head_least (a : Z) (xs : list Z) :
  Sorted Z.le (a :: xs) -> forall x, In x (a :: xs) -> a <= x.
Proof.
  intros Hs x [<-|Hx]; [lia|].
  apply Sorted_StronglySorted in Hs; [|exact Z.le_trans].
  inversion Hs as [|? ? _ Hall]; subst.
  rewrite Forall_forall in Hall. apply (Hall x Hx).
Qed.

Lemma Sorted_NoDup_strict (xs : list Z) :
  Sorted Z.le xs -> NoDup xs -> StronglySorted Z.lt xs.
Proof.
  induction xs as [|a xs IH]; intros Hs Hn; [constructor|].
  inversion Hn as [|? ? Hnot Hn']; subst.
  constructor.
  - apply IH; [inversion Hs; assumption | exact Hn'].
  - apply Forall_forall. intros x Hx.
    pose proof (Sorted_head_least a xs Hs x (or_intror Hx)).
    assert (a <> x) by (intros ->; contradiction).
    lia.
Qed.

Lemma pair_midpoints_bounds (lo hi : Z) (xs : list Z) :
  (forall x, In x xs -> lo <= x <= hi) ->
  forall m, In m (pair_midpoints xs) -> lo <= m <= hi.
Proof.
  enough (H : forall n (ys : list Z), (List.length ys <= n)%nat ->
                (forall x, In x ys -> lo <= x <= hi) ->
                forall m, In m (pair_midpoints ys) -> lo <= m <= hi)
    by (apply (H (List.length xs)); lia).
  induction n as [|n IH]; intros ys Hn Hall m Hm.
  - destruct ys; [contradiction | simpl in Hn; lia].
  - destruct ys as [|a [|b rest]]; try contradiction.
    cbn [pair_midpoints] in Hm. destruct Hm as [<-|Hm].
    + pose proof (Hall a (or_introl eq_refl)).
      pose proof (Hall b (or_intror (or_introl eq_refl))).
      split; [apply Z.div_le_lower_bound | apply Z.div_le_upper_bound]; lia.
    + apply (IH rest); [simpl in Hn; lia | | exact Hm].
      intros x Hx. apply Hall. right. right. exact Hx.
Qed.

(** The snapped edges: the block raises only on an empty edge list;
    otherwise the result is strictly increasing, it starts at the least input
    edge and ends at the greatest one, and has at most one line for every two
    interior edges besides them. *)
Theorem snap_lines_keeps_outer_bounds (lines : list Z) :
  match snap_lines lines with
  | Raise _ => lines = []
  | Ok s =>
      StronglySorted Z.lt s
      /\ In (hd 0 s) lines /\ In (last s 0) lines
      /\ (forall x, In x lines -> hd 0 s <= x <= last s 0)
      /\ (List.length s <= 2 + (List.length lines - 2) / 2)%nat
  end.
Proof.
  destruct (snap_lines lines) as [s|e] eqn:Es.
  2:{ destruct lines as [|x xs]; [reflexivity|].
      destruct (snap_lines_Ok x xs) as [s Hs]. congruence. }
  pose proof (snap_lines_length _ _ Es) as Hlen.
  destruct (snap_lines_sorted_nodup _ _ Es) as (Hsorted & Hnodup & Hne).
  rewrite snap_lines_closed_form in Es.
  pose proof (sorted_Sorted lines) as HL.
  pose proof (sorted_perm Z.leb lines) as Hperm.
  destruct (sorted Z.leb lines) as [|first rest] eqn:EL; [discriminate|].
  apply Ok_inj in Es.
  set (hi := last (first :: rest) 0) in *.
  assert (Hlo : forall x, In x (first :: rest) -> first <= x)
    by (apply Sorted_head_least, HL).
  assert (Hhi : forall x, In x (first :: rest) -> x <= hi)
    by (apply Sorted_last_greatest, HL).
  assert (Hhi_in : In hi (first :: rest))
    by (apply exists_last_In).
  assert (Hmem : forall e, In e s -> first <= e <= hi).
  { intros e He. rewrite <- Es in He. apply (proj1 (sorted_set_In _ _)) in He.
    cbn [app In] in He. destruct He as [<-|[<-|He]].
    - split; [lia | apply Hhi; left; reflexivity].
    - split; [apply Hlo, Hhi_in | lia].
    - revert He. apply pair_midpoints_bounds.
      intros x Hx. apply firstn_In in Hx. split; [apply Hlo | apply Hhi]; exact Hx. }
  assert (Hfirst_in : In first s)
    by (rewrite <- Es; apply (proj2 (sorted_set_In _ _)); left; reflexivity).
  assert (Hhi_s : In hi s)
    by (rewrite <- Es; apply (proj2 (sorted_set_In _ _)); right; left;
        reflexivity).
  assert (Hhd : hd 0 s = first).
  { destruct s as [|h t]; [contradiction|]. simpl.
    pose proof (Sorted_head_least h t Hsorted first Hfirst_in).
    pose proof (Hmem h (or_introl eq_refl)). lia. }
  assert (Hlast : last s 0 = hi).
  { pose proof (Sorted_last_greatest s 0 Hsorted hi Hhi_s).
    assert (In (last s 0) s)
      by (destruct s as [|h t]; [contradiction | apply exists_last_In]).
    pose proof (Hmem (last s 0) H0). lia. }
  rewrite Hhd, Hlast.
  split; [apply Sorted_NoDup_strict; assumption|].
  split; [eapply Permutation_in;
          [apply Permutation_sym, Hperm | left; reflexivity]|].
  split; [eapply Permutation_in; [apply Permutation_sym, Hperm | exact Hhi_in]|].
  split; [|exact Hlen].
  intros x Hx.
  assert (In x (first :: rest)) by (eapply Permutation_in; [apply Hperm | exact Hx]).
  split; [apply Hlo | apply Hhi]; assumption.
Qed.

(** The snapped edges do not depend on the order in which the bands are
    listed. *)
Theorem snap_lines_order_independent (lines1 lines2 : list Z) :
  Permutation lines1 lines2 -> snap_lines lines1 = snap_lines lines2.
Proof.
  intros Hp. rewrite !snap_lines_closed_form, (sorted_Z_perm _ _ Hp).
  reflexivity.
Qed.

Lemma snap_lines_order_independent_witness :
  snap_lines [0; 10; 10; 20] = snap_lines [10; 20; 0; 10].
Proof.
  apply snap_lines_order_independent.
  apply (Permutation_app_comm [0; 10] [10; 20]).
Defined.

(** ** Text reconciliation: what the merged fields keep *)

Lemma existsb_filter_length {A : Type} (f : A -> bool) (xs : list A) :
  existsb f xs = true -> (1 <= List.length (filter f xs))%nat.
Proof.
  induction xs as [|x xs IH]; simpl; [discriminate|].
  destruct (f x); simpl; [lia | exact IH].
Qed.

Section ReconciliationInvariants.
Context `{BoxOps}.

Lemma merge_text_fields_split (paddle_t_b poppler_t_b : list TextField) :
  merge_text_fields paddle_t_b poppler_t_b
  = merged_fields_of paddle_t_b poppler_t_b
    ++ unmatched_from_B paddle_t_b poppler_t_b
    ++ unmatched_from_A paddle_t_b (merged_fields_of paddle_t_b poppler_t_b).
Proof.
  unfold merge_text_fields.
  rewrite merge_pop_loop. cbn [app].
  rewrite keep_pad_loop. reflexivity.
Qed.

(** With no field on one side, [merge_text_fields] returns the other side
    unchanged. *)
Theorem merge_text_fields_empty_side (fields : list TextField) :
  merge_text_fields [] fields = fields
  /\ merge_text_fields fields [] = fields.
Proof.
  rewrite !merge_text_fields_split. split.
  - unfold merged_fields_of, unmatched_from_B, unmatched_from_A.
    cbn [filter map existsb negb].
    assert (Hflat : flat_map (fun _ : TextField => @nil TextField) fields = [])
      by (induction fields as [|f fs IH]; [reflexivity | exact IH]).
    rewrite Hflat. cbn [app]. rewrite app_nil_r.
    induction fields as [|f fs IH]; [reflexivity|].
    cbn [filter]. now rewrite IH.
  - unfold merged_fields_of, unmatched_from_B, unmatched_from_A.
    cbn [flat_map filter existsb negb app].
    induction fields as [|f fs IH]; [reflexivity|].
    cbn [filter]. now rewrite IH.
Qed.

Lemma merged_or_unmatched_length (paddle_t_b poppler_t_b : list TextField) :
  (List.length poppler_t_b
   <= List.length (merged_fields_of paddle_t_b poppler_t_b)
      + List.length (unmatched_from_B paddle_t_b poppler_t_b))%nat.
Proof.
  induction poppler_t_b as [|pop rest IH]; [simpl; lia|].
  change (merged_fields_of paddle_t_b (pop :: rest))
    with (map (fun pad_t_b => {| bbox := merge (bbox pad_t_b) (bbox pop);
                                 text := text pop |})
              (filter (fun pad_t_b => inside0 pop pad_t_b) paddle_t_b)
          ++ merged_fields_of paddle_t_b rest).
  change (unmatched_from_B paddle_t_b (pop :: rest))
    with (if negb (existsb (fun pad_t_b => inside0 pop pad_t_b) paddle_t_b)
          then pop :: unmatched_from_B paddle_t_b rest
          else unmatched_from_B paddle_t_b rest).
  rewrite length_app, length_map.
  destruct (existsb (fun pad_t_b => inside0 pop pad_t_b) paddle_t_b) eqn:Ex;
    cbn [negb List.length].
  - pose proof (existsb_filter_length _ _ Ex). lia.
  - lia.
Qed.

(** The text of every poppler field survives in the result, every text of
    the result is that of a poppler field unless the field is a paddle field
    passed through, and the result has at least as many fields as there are
    poppler fields. *)
Theorem merge_text_fields_keeps_poppler_text
  (paddle_t_b poppler_t_b : list TextField) :
  (forall pop_t_b, In pop_t_b poppler_t_b ->
     exists r, In r (merge_text_fields paddle_t_b poppler_t_b)
               /\ text r = text pop_t_b)
  /\ (forall r, In r (merge_text_fields paddle_t_b poppler_t_b) ->
        (exists pop_t_b, In pop_t_b poppler_t_b /\ text r = text pop_t_b)
        \/ In r paddle_t_b)
  /\ (List.length poppler_t_b
      <= List.length (merge_text_fields paddle_t_b poppler_t_b))%nat.
Proof.
  rewrite merge_text_fields_split. split; [|split].
  - intros pop Hpop.
    destruct (existsb (fun pad_t_b => inside0 pop pad_t_b) paddle_t_b) eqn:Ex.
    + apply existsb_exists in Ex. destruct Ex as (pad & Hpad & Hin).
      exists {| bbox := merge (bbox pad) (bbox pop); text := text pop |}.
      split; [|reflexivity].
      apply in_or_app. left. unfold merged_fields_of.
      apply in_flat_map. exists pop. split; [exact Hpop|].
      apply in_map_iff. exists pad. split; [reflexivity|].
      apply filter_In. split; assumption.
    + exists pop. split; [|reflexivity].
      apply in_or_app. right. apply in_or_app. left.
      apply filter_In. split; [exact Hpop | now rewrite Ex].
  - intros r Hr. rewrite !in_app_iff in Hr. destruct Hr as [Hr|[Hr|Hr]].
    + left. unfold merged_fields_of in Hr. apply in_flat_map in Hr.
      destruct Hr as (pop & Hpop & Hr). apply in_map_iff in Hr.
      destruct Hr as (pad & <- & _). exists pop. split; [exact Hpop|reflexivity].
    + left. apply filter_In in Hr. exists r. split; [apply Hr | reflexivity].
    + right. apply filter_In in Hr. apply Hr.
  - rewrite !length_app.
    pose proof (merged_or_unmatched_length paddle_t_b poppler_t_b). lia.
Qed.

(** The concatenation of texts with single spaces. *)
Lemma concat_space_cons (x : string) (y : string) (l : list string) :
  String.concat " " (x :: y :: l)
  = String.append x (String.append " " (String.concat " " (y :: l))).
Proof. reflexivity. Qed.

Lemma append_assoc (a b c : string) :
  String.append (String.append a b) c = String.append a (String.append b c).
Proof. induction a as [|ch a IH]; simpl; [reflexivity | now rewrite IH]. Qed.

Lemma concat_space_join (a b : string) (l : list string) :
  String.concat " " (String.append a (String.append " " b) :: l)
  = String.concat " " (a :: b :: l).
Proof.
  destruct l as [|c l]; [reflexivity|].
  rewrite !concat_space_cons, !append_assoc. reflexivity.
Qed.

Lemma sweep_spec_nonempty (rest : list TextField) :
  forall acc, sweep_spec acc rest <> [].
Proof.
  induction rest as [|f rest IH]; intros acc; [discriminate|].
  cbn [sweep_spec]. destruct (close_to acc f); [apply IH | discriminate].
Qed.

Lemma sweep_spec_length (rest : list TextField) :
  forall acc, (List.length (sweep_spec acc rest) <= S (List.length rest))%nat.
Proof.
  induction rest as [|f rest IH]; intros acc; [simpl; lia|].
  cbn [sweep_spec]. destruct (close_to acc f).
  - specialize (IH (join_fields acc f)). simpl. lia.
  - specialize (IH f). simpl. lia.
Qed.

Lemma sweep_spec_texts (rest : list TextField) :
  forall acc,
    String.concat " " (map text (sweep_spec acc rest))
    = String.concat " " (text acc :: map text rest).
Proof.
  induction rest as [|f rest IH]; intros acc; [reflexivity|].
  cbn [sweep_spec map]. destruct (close_to acc f).
  - rewrite IH. unfold join_fields. cbn [text].
    apply concat_space_join.
  - cbn [map].
    destruct (sweep_spec f rest) as [|g out] eqn:Es.
    + exfalso. exact (sweep_spec_nonempty rest f Es).
    + cbn [map]. rewrite concat_space_cons.
      change (text g :: map text out) with (map text (g :: out)).
      rewrite <- Es, IH. reflexivity.
Qed.

(** [merge_closest_text_fields] loses no text and never reorders it: the
    texts of its result, joined by single spaces, are the texts of the sorted
    input joined by single spaces, the first of them twice.  The result is
    empty only for an empty input, and has at most one field more than the
    input. *)
Theorem merge_closest_text_fields_keeps_texts (text_fields : list TextField) :
  String.concat " " (map text (merge_closest_text_fields text_fields))
  = String.concat " "
      (match map text (sorted top_left_leb text_fields) with
       | [] => []
       | first :: rest => first :: first :: rest
       end)
  /\ (merge_closest_text_fields text_fields = [] <-> text_fields = [])
  /\ (List.length (merge_closest_text_fields text_fields)
      <= S (List.length text_fields))%nat.
Proof.
  assert (Hform :
            merge_closest_text_fields text_fields
            = match sorted top_left_leb text_fields with
              | [] => []
              | f :: rest => sweep_spec f (f :: rest)
              end).
  { unfold merge_closest_text_fields.
    destruct (sorted top_left_leb text_fields) as [|f rest]; [reflexivity|].
    cbn [fold_left sweep_spec]. unfold merge_closest_step at 2.
    destruct (close_to f f).
    - apply (merge_closest_loop rest (join_fields f f) []).
    - apply (merge_closest_loop rest f [f]). }
  pose proof (length_sorted top_left_leb text_fields) as Hlen.
  rewrite Hform.
  destruct (sorted top_left_leb text_fields) as [|f rest] eqn:Es.
  - split; [reflexivity|]. split.
    + split; [intros _ | reflexivity].
      destruct text_fields; [reflexivity | discriminate].
    + simpl. lia.
  - split; [apply (sweep_spec_texts (f :: rest) f)|]. split.
    + split.
      * intros E. exfalso. exact (sweep_spec_nonempty (f :: rest) f E).
      * intros ->. discriminate.
    + pose proof (sweep_spec_length (f :: rest) f). lia.
Qed.

End ReconciliationInvariants.

(** ** Digit density: bounds, and the shape of the digit-density header *)

Lemma digits_in_bounds (s : string) :
  0 <= digits_in s <= Z.of_nat (String.length s).
Proof.
  unfold digits_in. rewrite <- length_list_ascii_of_string.
  pose proof (filter_length_le is_cipher (list_ascii_of_string s)). lia.
Qed.

Lemma density_bounds (cs : list Cell) : (0 <= density cs <= 1)%Q.
Proof.
  unfold density.
  pose proof (digits_in_bounds (all_text cs)) as Hd.
  destruct (String.length (all_text cs)) as [|n]; cbn [Nat.eqb].
  - split; [apply Qle_refl | discriminate].
  - unfold Qle, Qdiv, Qmult, Qinv, inject_Z.
    cbn [Qnum Qden Z.of_nat] in *. split; cbn; lia.
Qed.

(** [cnt_ciphers] always returns a ratio between 0 and 1. *)
Theorem cnt_ciphers_between_0_and_1 (cs : list Cell) :
  exists q, cnt_ciphers cs = Ok q /\ (0 <= q <= 1)%Q.
Proof.
  exists (density cs). split; [apply cnt_ciphers_density | apply density_bounds].
Qed.

Lemma take_while_prefix {A : Type} (f : A -> bool) (xs : list A) :
  take_while f xs = firstn (List.length (take_while f xs)) xs.
Proof.
  induction xs as [|x xs IH]; [reflexivity|]. simpl.
  destruct (f x); [simpl; now rewrite <- IH | reflexivity].
Qed.

Lemma take_while_length {A : Type} (f : A -> bool) (xs : list A) :
  (List.length (take_while f xs) <= List.length xs)%nat.
Proof.
  induction xs as [|x xs IH]; [simpl; lia|]. simpl.
  destruct (f x); simpl; lia.
Qed.

Lemma take_while_all {A : Type} (f : A -> bool) (xs : list A) :
  (forall x, In x xs -> f x = true) -> take_while f xs = xs.
Proof.
  induction xs as [|x xs IH]; intros Hall; [reflexivity|]. simpl.
  rewrite (Hall x (or_introl eq_refl)). f_equal.
  apply IH. intros y Hy. apply Hall. right. exact Hy.
Qed.

Lemma actualize_header_unfold (table : StructuredTable) :
  actualize_header table =
  match rows table with
  | [] => Raise IndexError
  | row0 :: rest =>
      let accepted :=
        row0 :: take_while (fun r => Qle_bool (density (map cell r))
                                              (density (map cell row0)))
                           rest in
      Ok (if (List.length accepted <? List.length (rows table))%nat
          then from_structured_and_rows table accepted
          else {| sth_bbox := st_bbox table;
                  sth_cells := cells table;
                  header := [] |})
  end.
Proof.
  unfold actualize_header.
  destruct (rows table) as [|row0 rest]; [reflexivity|].
  change (getitem (row0 :: rest) 0) with (Ok row0). cbn [bind tl].
  rewrite cnt_ciphers_density. cbn [bind].
  rewrite header_scan_closed_form. cbn [bind app].
  destruct (_ <? _)%nat; reflexivity.
Qed.

(** The header of [actualize_header] is never the whole table: the call
    raises only on a table with no row, keeps the table's box and cells, and
    returns as header either nothing or the first [k] rows for some [k] with
    [1 <= k < len(rows)].  A table with a single row gets no header. *)
Theorem actualize_header_proper_prefix (table : StructuredTable) :
  match actualize_header table with
  | Raise _ => rows table = []
  | Ok headered =>
      sth_bbox headered = st_bbox table
      /\ sth_cells headered = cells table
      /\ (header headered = []
          \/ exists k, (1 <= k < List.length (rows table))%nat
                       /\ header headered = firstn k (rows table))
      /\ (List.length (rows table) = 1%nat -> header headered = [])
  end.
Proof.
  rewrite actualize_header_unfold.
  destruct (rows table) as [|row0 rest] eqn:Er; [reflexivity|].
  cbv zeta.
  set (tw := take_while _ rest).
  destruct (Nat.ltb_spec (List.length (row0 :: tw)) (List.length (row0 :: rest)))
    as [Hlt|Hge].
  - cbn [sth_bbox sth_cells header from_structured_and_rows].
    repeat split.
    + right. exists (S (List.length tw)). split; [simpl in *; lia|].
      cbn [firstn]. f_equal. apply take_while_prefix.
    + intros H1. simpl in H1, Hlt. lia.
  - cbn [sth_bbox sth_cells header]. repeat split. left. reflexivity.
Qed.

(** When no row after the first has a higher digit density than the first
    row (in particular when the table holds no digit at all),
    [actualize_header] accepts every row and so returns an empty header. *)
Theorem actualize_header_empty_without_rise (table : StructuredTable)
  (row0 : list CellLinked) (rest : list (list CellLinked)) :
  rows table = row0 :: rest ->
  (forall r, In r rest ->
             (density (map cell r) <= density (map cell row0))%Q) ->
  actualize_header table
  = Ok {| sth_bbox := st_bbox table; sth_cells := cells table; header := [] |}.
Proof.
  intros Hrows Hall. rewrite actualize_header_unfold, Hrows. cbv zeta.
  rewrite take_while_all.
  - rewrite Nat.ltb_irrefl. reflexivity.
  - intros r Hr. apply Qle_bool_iff. apply Hall, Hr.
Qed.

Lemma actualize_header_empty_without_rise_witness :
  actualize_header
    {| st_bbox := mkBorderBox 0 0 1 2; cells := [];
       rows := [text_row "a1"; text_row "ab"]; cols := [] |}
  = Ok {| sth_bbox := mkBorderBox 0 0 1 2; sth_cells := []; header := [] |}.
Proof.
  apply (actualize_header_empty_without_rise
           {| st_bbox := mkBorderBox 0 0 1 2; cells := [];
              rows := [text_row "a1"; text_row "ab"]; cols := [] |}
           (text_row "a1") [text_row "ab"] eq_refl).
  intros r [<-|[]]. vm_compute. discriminate.
Defined.

(** ** Header inference by the classifier: shape of the header *)

Section HeaderInvariants.
Context `{Collaborators}.

(** Both components of [create_header] in closed form. *)
Lemma create_header_pair (series : list (list CellLinked))
  (header_limit : nat) :
  create_header series header_limit
  = match last_index analyse (firstn header_limit series) with
    | None => ([], [])
    | Some k =>
        if 3 * Z.of_nat (List.length series) <? 4 * Z.of_nat (k + 1)
        then ([], [series])
        else (firstn (k + 1) series, [])
    end.
Proof.
  unfold create_header, enumerate.
  rewrite create_header_loop. cbn [app Nat.add].
  destruct (last_index analyse (firstn header_limit series)) as [k|] eqn:El.
  - apply (last_index_Some analyse []) in El. destruct El as (Hk & _ & _).
    rewrite <- firstn_map, candidate_lines, firstn_firstn.
    rewrite length_firstn in Hk.
    replace (Nat.min (k + 1) header_limit) with (k + 1)%nat by lia.
    assert (Hlen : List.length (firstn (k + 1) series) = (k + 1)%nat)
      by (rewrite length_firstn; lia).
    rewrite Hlen.
    destruct (Qgtb _ _) eqn:Eq.
    + apply (Qgtb_inject_Z_scaled _ _ 3 4) in Eq.
      apply Z.ltb_lt in Eq. rewrite Eq. reflexivity.
    + destruct (Z.ltb_spec (3 * Z.of_nat (List.length series))
                           (4 * Z.of_nat (k + 1))) as [Hlt|Hge];
        [|reflexivity].
      apply (Qgtb_inject_Z_scaled _ _ 3 4) in Hlt. congruence.
  - destruct (Qgtb _ _) eqn:Eq; [|reflexivity].
    apply (Qgtb_inject_Z_scaled _ _ 3 4) in Eq.
    change (Z.of_nat (List.length (@nil (list CellLinked)))) with 0 in Eq. lia.
Qed.

(** The header [create_header] returns is a prefix of the series: it is
    empty, or it is the first [k] lines with [1 <= k <= header_limit], its
    last line is header-like, and it covers at most 75% of the lines.  The
    diagnostic file is written exactly when a non-empty header was found and
    discarded, and then the header returned is empty. *)
Theorem create_header_prefix (series : list (list CellLinked))
  (header_limit : nat) :
  let header := fst (create_header series header_limit) in
  let written := snd (create_header series header_limit) in
  (header = []
   \/ exists k, (1 <= k <= header_limit)%nat
                /\ (k <= List.length series)%nat
                /\ 4 * Z.of_nat k <= 3 * Z.of_nat (List.length series)
                /\ header = firstn k series
                /\ analyse (nth (k - 1) series []) = true)
  /\ (written = []
      \/ (written = [series] /\ header = []
          /\ exists line, In line (firstn header_limit series)
                          /\ analyse line = true)).
Proof.
  cbv zeta. rewrite create_header_pair.
  destruct (last_index analyse (firstn header_limit series)) as [k|] eqn:El.
  2:{ split; left; reflexivity. }
  apply (last_index_Some analyse []) in El.
  destruct El as (Hk & Hfk & _).
  rewrite length_firstn in Hk.
  rewrite nth_firstn in Hfk.
  destruct (Nat.ltb_spec k header_limit) as [Hkl|]; [|lia].
  destruct (Z.ltb_spec (3 * Z.of_nat (List.length series))
                       (4 * Z.of_nat (k + 1))) as [Hlt|Hge]; cbn [fst snd].
  - split; [left; reflexivity|]. right.
    split; [reflexivity|]. split; [reflexivity|].
    exists (nth k series []). split; [|exact Hfk].
    replace (nth k series []) with (nth k (firstn header_limit series) []).
    + apply nth_In. rewrite length_firstn. lia.
    + rewrite nth_firstn.
      destruct (Nat.ltb_spec k header_limit); [reflexivity | lia].
  - split; [|left; reflexivity]. right. exists (k + 1)%nat.
    split; [lia|]. split; [lia|]. split; [lia|]. split; [reflexivity|].
    replace (k + 1 - 1)%nat with k by lia. exact Hfk.
Qed.

(** The header-likeness threshold drops from "more than half" to "more than
    a fifth" between 5 and 6 cells: an empty line is never header-like; a
    line of 5 cells with 2 header cells is not header-like, and appending one
    cell that is not a header cell makes it header-like. *)
Theorem analyse_threshold_jump (line : list CellLinked) (c : CellLinked) :
  List.length line = 5%nat ->
  List.length (header_cells line) = 2%nat ->
  header_cells [c] = [] ->
  analyse [] = false
  /\ analyse line = false
  /\ analyse (line ++ [c]) = true.
Proof.
  intros Hlen Hcount Hbody.
  split; [reflexivity|].
  split.
  - apply not_true_iff_false. rewrite analyse_header_like.
    unfold header_like. rewrite Hlen, Hcount. simpl. lia.
  - apply analyse_header_like. unfold header_like.
    assert (Hcells : header_cells (line ++ [c]) = header_cells line).
    { unfold header_cells in *. rewrite filter_app, Hbody. apply app_nil_r. }
    rewrite Hcells, Hcount, length_app, Hlen. simpl. lia.
Qed.

End HeaderInvariants.

Lemma analyse_threshold_jump_witness :
  @analyse demo_collaborators [] = false
  /\ @analyse demo_collaborators five_cell_line = false
  /\ @analyse demo_collaborators (five_cell_line ++ [body_cell]) = true.
Proof.
  apply (@analyse_threshold_jump demo_collaborators five_cell_line body_cell);
    reflexivity.
Defined.

(** ** Cell text: the scoped recognition pass and the refinement of cells *)

Lemma list_min_le (x : Z) (xs : list Z) :
  forall y, In y (x :: xs) -> list_min (x :: xs) <= y.
Proof.
  cbn [list_min]. revert x.
  induction xs as [|z zs IH]; intros x y Hy.
  - destruct Hy as [<-|[]]. simpl. lia.
  - cbn [fold_left].
    destruct Hy as [<-|[<-|Hy]].
    + specialize (IH (Z.min x z) (Z.min x z) (or_introl eq_refl)). lia.
    + specialize (IH (Z.min x z) (Z.min x z) (or_introl eq_refl)). lia.
    + apply (IH (Z.min x z) y). right. exact Hy.
Qed.

Lemma list_max_ge (x : Z) (xs : list Z) :
  forall y, In y (x :: xs) -> y <= list_max (x :: xs).
Proof.
  cbn [list_max]. revert x.
  induction xs as [|z zs IH]; intros x y Hy.
  - destruct Hy as [<-|[]]. simpl. lia.
  - cbn [fold_left].
    destruct Hy as [<-|[<-|Hy]].
    + specialize (IH (Z.max x z) (Z.max x z) (or_introl eq_refl)). lia.
    + specialize (IH (Z.max x z) (Z.max x z) (or_introl eq_refl)). lia.
    + apply (IH (Z.max x z) y). right. exact Hy.
Qed.

Lemma list_min_In (x : Z) (xs : list Z) : In (list_min (x :: xs)) (x :: xs).
Proof.
  cbn [list_min]. revert x.
  induction xs as [|z zs IH]; intros x; [left; reflexivity|].
  cbn [fold_left]. destruct (IH (Z.min x z)) as [E|Hin].
  - destruct (Z.min_spec x z) as [[_ Em]|[_ Em]].
    + left. rewrite <- E. lia.
    + right. left. rewrite <- E. lia.
  - right. right. exact Hin.
Qed.

Lemma list_max_In (x : Z) (xs : list Z) : In (list_max (x :: xs)) (x :: xs).
Proof.
  cbn [list_max]. revert x.
  induction xs as [|z zs IH]; intros x; [left; reflexivity|].
  cbn [fold_left]. destruct (IH (Z.max x z)) as [E|Hin].
  - destruct (Z.max_spec x z) as [[_ Em]|[_ Em]].
    + right. left. rewrite <- E. lia.
    + left. rewrite <- E. lia.
  - right. right. exact Hin.
Qed.

(** A refitted proposal cell keeps its text boxes, is unchanged when it has
    none, and otherwise gets the smallest box that holds them all: each text
    box lies inside it and each of its four edges is an edge of some text
    box. *)
Theorem refit_cell_encloses_text_boxes (c : Cell) :
  let b := cell_box (refit_cell c) in
  text_boxes (refit_cell c) = text_boxes c
  /\ match text_boxes c with
     | [] => refit_cell c = c
     | _ :: _ =>
         Forall (fun tb => top_left_x b <= top_left_x (bbox tb)
                           /\ top_left_y b <= top_left_y (bbox tb)
                           /\ bottom_right_x (bbox tb) <= bottom_right_x b
                           /\ bottom_right_y (bbox tb) <= bottom_right_y b)
                (text_boxes c)
         /\ In (top_left_x b) (map (fun tb => top_left_x (bbox tb)) (text_boxes c))
         /\ In (top_left_y b) (map (fun tb => top_left_y (bbox tb)) (text_boxes c))
         /\ In (bottom_right_x b)
               (map (fun tb => bottom_right_x (bbox tb)) (text_boxes c))
         /\ In (bottom_right_y b)
               (map (fun tb => bottom_right_y (bbox tb)) (text_boxes c))
     end.
Proof.
  cbv zeta. unfold refit_cell.
  destruct (text_boxes c) as [|tb [|tb2 tbs]] eqn:Et.
  - split; [exact Et | reflexivity].
  - cbn [text_boxes cell_box top_left_x top_left_y bottom_right_x
         bottom_right_y map].
    split; [reflexivity|]. split.
    + constructor; [lia | constructor].
    + repeat split; left; reflexivity.
  - cbn [text_boxes cell_box top_left_x top_left_y bottom_right_x
         bottom_right_y].
    split; [reflexivity|]. split.
    + apply Forall_forall. intros t Ht.
      repeat split.
      * apply list_min_le.
        apply (in_map (fun tb => top_left_x (bbox tb)) _ _ Ht).
      * apply list_min_le.
        apply (in_map (fun tb => top_left_y (bbox tb)) _ _ Ht).
      * apply list_max_ge.
        apply (in_map (fun tb => bottom_right_x (bbox tb)) _ _ Ht).
      * apply list_max_ge.
        apply (in_map (fun tb => bottom_right_y (bbox tb)) _ _ Ht).
    + repeat split; first [apply list_min_In | apply list_max_In].
Qed.

Section CellTextInvariants.
Context `{Collaborators}.

(** The recognition pass over a cell never moves an edge outward and keeps
    the text boxes; with no sub-region found the cell is unchanged. *)
Theorem shrink_cell_never_grows (img : Image) (c : Cell) :
  let b := cell_box c in
  let b' := cell_box (shrink_cell img c) in
  text_boxes (shrink_cell img c) = text_boxes c
  /\ top_left_x b <= top_left_x b'
  /\ top_left_y b <= top_left_y b'
  /\ bottom_right_x b' <= bottom_right_x b
  /\ bottom_right_y b' <= bottom_right_y b
  /\ (te_extract_region img (top_left_x b) (top_left_y b) (width b) (height b)
      = [] -> shrink_cell img c = c).
Proof.
  cbv zeta. unfold shrink_cell.
  destruct (te_extract_region img (top_left_x (cell_box c))
              (top_left_y (cell_box c)) (width (cell_box c))
              (height (cell_box c))) as [|r rs].
  - repeat split; try lia.
  - cbn [cell_box text_boxes top_left_x top_left_y bottom_right_x
         bottom_right_y].
    repeat split; try lia. discriminate.
Qed.

(** The text of the cell's rectangle, as [actualize_text] asks for it. *)
Lemma actualize_cell_cases (img : Image) (c : Cell) :
  let read := te_extract img (top_left_x (cell_box c)) (top_left_y (cell_box c))
                         (width (cell_box c)) (height (cell_box c)) in
  (actualize_cell img c = c
   /\ text_boxes c <> []
   /\ forall tb, In tb (text_boxes c) -> text tb <> "")
  \/ (actualize_cell img c
      = {| cell_box := cell_box c;
           text_boxes := text_boxes c ++ [{| bbox := cell_box c; text := read |}] |}
      /\ (text_boxes c = []
          \/ exists tb, In tb (text_boxes c) /\ text tb = "")).
Proof.
  cbv zeta. unfold actualize_cell.
  destruct (text_boxes c) as [|tb tbs] eqn:Et.
  - right. split; [reflexivity | left; reflexivity].
  - cbn [orb].
    destruct (existsb (fun text_box => (text text_box =? "")%string) (tb :: tbs))
      eqn:Ex.
    + right. split; [reflexivity|]. right.
      apply existsb_exists in Ex. destruct Ex as (t & Ht & Hempty).
      exists t. split; [exact Ht | now apply String.eqb_eq].
    + left. split; [reflexivity|]. split; [discriminate|].
      intros t Ht Hempty.
      assert (existsb (fun text_box => (text text_box =? "")%string) (tb :: tbs)
              = true).
      { apply existsb_exists. exists t. split; [exact Ht|].
        now apply String.eqb_eq. }
      congruence.
Qed.

(** [actualize_text] only appends: it keeps the table's box, every cell's
    box and grid position and every text box already there, adds at most one
    text box to a cell, and leaves no cell without a text box; a cell whose
    text boxes all hold text is left as it is. *)
Theorem actualize_text_only_appends (table : StructuredTable) (img : Image) :
  st_bbox (actualize_text table img) = st_bbox table
  /\ Forall2 (fun c c' =>
                row c' = row c /\ col c' = col c
                /\ row_span c' = row_span c /\ col_span c' = col_span c
                /\ cell_box (cell c') = cell_box (cell c)
                /\ text_boxes (cell c') <> []
                /\ (exists added,
                      text_boxes (cell c') = text_boxes (cell c) ++ added
                      /\ (List.length added <= 1)%nat)
                /\ (text_boxes (cell c) <> [] ->
                    (forall tb, In tb (text_boxes (cell c)) -> text tb <> "") ->
                    c' = c))
             (cells table) (cells (actualize_text table img)).
Proof.
  split; [reflexivity|].
  unfold actualize_text. cbn [cells].
  induction (cells table) as [|c cs IH]; [constructor|].
  cbn [map]. constructor; [|exact IH].
  unfold actualize_linked. cbn [row col row_span col_span cell].
  destruct (actualize_cell_cases img (cell c))
    as [(E & Hne & Hall)|(E & Hcause)]; rewrite E.
  - repeat split; try assumption.
    + exists []. split; [now rewrite app_nil_r | simpl; lia].
    + intros _ _. destruct c; reflexivity.
  - cbn [cell_box text_boxes]. repeat split.
    + intros Habs. apply (f_equal (@List.length TextField)) in Habs.
      rewrite length_app in Habs. simpl in Habs. lia.
    + eexists. split; [reflexivity | simpl; lia].
    + intros Hne Hall. exfalso.
      destruct Hcause as [Hnil|(tb & Htb & Hempty)];
        [contradiction | exact (Hall tb Htb Hempty)].
Qed.

(** A second pass over a cell changes nothing exactly when no text box the
    cell came with is empty and, for a cell that came with none, the
    recognised text is not empty: a cell that holds an empty text box is read
    again, and gets one more text box, at every pass. *)
Theorem actualize_cell_second_pass (img : Image) (c : Cell) :
  actualize_cell img (actualize_cell img c) = actualize_cell img c
  <-> (forall tb, In tb (text_boxes c) -> text tb <> "")
      /\ (text_boxes c = [] ->
          te_extract img (top_left_x (cell_box c)) (top_left_y (cell_box c))
                     (width (cell_box c)) (height (cell_box c)) <> "").
Proof.
  assert (Hgrow : forall c0 : Cell,
             (text_boxes c0 = []
              \/ exists tb, In tb (text_boxes c0) /\ text tb = "") ->
             actualize_cell img c0 <> c0).
  { intros c0 Hcause E.
    destruct (actualize_cell_cases img c0) as [(_ & Hne & Hall)|(E' & _)].
    - destruct Hcause as [Hnil|(tb & Htb & Hempty)];
        [contradiction | exact (Hall tb Htb Hempty)].
    - rewrite E' in E. apply (f_equal text_boxes) in E.
      apply (f_equal (@List.length TextField)) in E.
      cbn [text_boxes] in E. rewrite length_app in E. simpl in E. lia. }
  destruct (actualize_cell_cases img c) as [(E & Hne & Hall)|(E & Hcause)].
  - rewrite E. split; [|intros _; exact E].
    intros _. split; [exact Hall | intros Hnil; contradiction].
  - set (read := te_extract img (top_left_x (cell_box c))
                            (top_left_y (cell_box c)) (width (cell_box c))
                            (height (cell_box c))) in *.
    split.
    + intros Hfix.
      destruct (actualize_cell_cases img (actualize_cell img c))
        as [(_ & _ & Hall')|(_ & Hcause')].
      * rewrite E in Hall'. cbn [text_boxes] in Hall'. split.
        -- intros tb Htb. apply Hall'. apply in_or_app. left. exact Htb.
        -- intros _. apply (Hall' {| bbox := cell_box c; text := read |}).
           apply in_or_app. right. left. reflexivity.
      * exfalso. exact (Hgrow _ Hcause' Hfix).
    + intros (Hall & Hread).
      destruct Hcause as [Hnil|(tb & Htb & Hempty)];
        [|exfalso; exact (Hall tb Htb Hempty)].
      destruct (actualize_cell_cases img (actualize_cell img c))
        as [(E' & _)|(_ & [Hnil'|(tb & Htb & Hempty)])]; [exact E' | |].
      * rewrite E in Hnil'. cbn [text_boxes] in Hnil'.
        apply (f_equal (@List.length TextField)) in Hnil'.
        rewrite length_app in Hnil'. simpl in Hnil'. lia.
      * exfalso. rewrite E in Htb. cbn [text_boxes] in Htb.
        rewrite Hnil in Htb. destruct Htb as [<-|[]].
        cbn [text] in Hempty. exact (Hread Hnil Hempty).
Qed.

End CellTextInvariants.

(** ** Serialisation: the text of a cell *)

Lemma top_left_leb_total (a b : TextField) :
  top_left_leb a b = true \/ top_left_leb b a = true.
Proof.
  unfold top_left_leb.
  rewrite !orb_true_iff, !andb_true_iff, !Z.ltb_lt, !Z.eqb_eq, !Z.leb_le. lia.
Qed.

Lemma top_left_leb_trans (a b c : TextField) :
  top_left_leb a b = true -> top_left_leb b c = true ->
  top_left_leb a c = true.
Proof.
  unfold top_left_leb.
  rewrite !orb_true_iff, !andb_true_iff, !Z.ltb_lt, !Z.eqb_eq, !Z.leb_le. lia.
Qed.

Lemma top_left_leb_key (a b : TextField) :
  top_left_leb a b = true -> top_left_leb b a = true ->
  top_left_key a = top_left_key b.
Proof.
  unfold top_left_leb, top_left_key.
  rewrite !orb_true_iff, !andb_true_iff, !Z.ltb_lt, !Z.eqb_eq, !Z.leb_le.
  intros Hab Hba. f_equal; lia.
Qed.

Lemma NoDup_map_injective {A B : Type} (f : A -> B) (xs : list A) :
  NoDup (map f xs) ->
  forall a b, In a xs -> In b xs -> f a = f b -> a = b.
Proof.
  induction xs as [|x xs IH]; intros Hn a b Ha Hb Hf; [contradiction|].
  cbn [map] in Hn. inversion Hn as [|? ? Hnot Hn']; subst.
  destruct Ha as [<-|Ha], Hb as [<-|Hb].
  - reflexivity.
  - exfalso. apply Hnot. rewrite Hf. apply in_map, Hb.
  - exfalso. apply Hnot. rewrite <- Hf. apply in_map, Ha.
  - apply IH; assumption.
Qed.

(** The serialised text of a cell does not depend on the order in which its
    fragments are held, as long as no two of them share the same top-left
    corner: it is their texts from top to bottom, then left to right,
    joined by single spaces. *)
Theorem cell_to_dict_text_order_independent (c1 c2 : CellLinked) :
  Permutation (text_boxes (cell c1)) (text_boxes (cell c2)) ->
  NoDup (map top_left_key (text_boxes (cell c1))) ->
  d_cell_text (cell_to_dict c1) = d_cell_text (cell_to_dict c2).
Proof.
  intros Hp Hn. unfold cell_to_dict. cbn [d_cell_text].
  f_equal. f_equal.
  apply sorted_by_perm.
  - apply top_left_leb_total.
  - apply top_left_leb_trans.
  - exact Hp.
  - intros a b Ha Hb Hab Hba.
    apply (NoDup_map_injective top_left_key _ Hn a b Ha Hb).
    apply top_left_leb_key; assumption.
Qed.

Lemma cell_to_dict_text_order_independent_witness :
  d_cell_text (cell_to_dict cell_upper_first) = "upper lower"
  /\ d_cell_text (cell_to_dict cell_upper_first)
     = d_cell_text (cell_to_dict cell_lower_first).
Proof.
  split; [reflexivity|].
  apply cell_to_dict_text_order_independent.
  - apply perm_swap.
  - repeat constructor; simpl; intuition discriminate.
Defined.

(** ** The page: free-text bands *)

Lemma text_pairs_loop (img : Image) (text_borders : list Z) :
  forall k s boxes,
    (2 * (s + k) <= List.length text_borders)%nat ->
    for_each (fun boxes i =>
                lo <- getitem text_borders (i * 2) ;;
                hi <- getitem text_borders (i * 2 + 1) ;;
                if hi - lo >? 3
                then Ok (boxes ++ [{| top_left_x := 1;
                                      top_left_y := lo;
                                      bottom_right_x := shape1 img;
                                      bottom_right_y := hi |}])
                else Ok boxes)
             (seq s k) boxes
    = Ok (boxes
          ++ pair_boxes img (firstn (2 * k) (skipn (2 * s) text_borders))).
Proof.
  induction k as [|k IH]; intros s boxes Hlen.
  - simpl. now rewrite app_nil_r.
  - cbn [seq for_each].
    destruct (skipn (2 * s) text_borders) as [|lo [|hi rest]] eqn:E.
    + apply (f_equal (@List.length Z)) in E.
      rewrite length_skipn in E. simpl in E. lia.
    + apply (f_equal (@List.length Z)) in E.
      rewrite length_skipn in E. simpl in E. lia.
    + assert (Hlo : nth_error text_borders (s * 2) = Some lo).
      { rewrite (Nat.mul_comm s 2), <- (Nat.add_0_r (2 * s)),
          <- nth_error_skipn, E.
        reflexivity. }
      assert (Hhi : nth_error text_borders (s * 2 + 1) = Some hi).
      { rewrite (Nat.mul_comm s 2), <- nth_error_skipn, E. reflexivity. }
      rewrite (getitem_Ok _ _ _ Hlo). cbn [bind].
      rewrite (getitem_Ok _ _ _ Hhi). cbn [bind].
      replace (2 * S k)%nat with (S (S (2 * k))) by lia.
      cbn [firstn pair_boxes].
      assert (Hrest : skipn (2 * S s) text_borders = rest).
      { replace (2 * S s)%nat with (2 + 2 * s)%nat by lia.
        rewrite <- skipn_skipn, E. reflexivity. }
      destruct (hi - lo >? 3); cbn [bind]; rewrite IH by lia;
        rewrite Hrest; [rewrite <- app_assoc|]; reflexivity.
Qed.

Lemma pair_boxes_borders (img : Image)
  (page_tables : list StructuredTableHeadered) :
  forall top,
    pair_boxes img
      (top :: flat_map (fun table => let '(_, y, _, y2) := box (sth_bbox table) in
                                     [y; y2])
                       page_tables
           ++ [shape0 img])
    = gap_boxes img top page_tables.
Proof.
  induction page_tables as [|table rest IH]; intros top.
  - simpl. now rewrite app_nil_r.
  - cbn [flat_map gap_boxes]. unfold box at 1. cbn [app pair_boxes].
    f_equal. apply (IH (bottom_right_y (sth_bbox table))).
Qed.

Lemma length_gap_boxes (img : Image)
  (page_tables : list StructuredTableHeadered) :
  forall top,
    (List.length (gap_boxes img top page_tables)
     <= S (List.length page_tables))%nat.
Proof.
  induction page_tables as [|table rest IH]; intros top; cbn [gap_boxes].
  - destruct (_ >? _); simpl; lia.
  - rewrite length_app. specialize (IH (bottom_right_y (sth_bbox table))).
    destruct (_ >? _); simpl; lia.
Qed.

(** The free-text bands of a page: for tables [t1 ... tn] taken in the order
    of [page.tables], the candidates are the bands from y = 1 to the top of
    [t1], from the bottom of each table to the top of the next, and from the
    bottom of [tn] to the image height, each kept only when it is more than 3
    units high, each from x = 1 to the image width.  The pairing never
    raises, and gives at most one band more than there are tables. *)
Theorem text_candidate_boxes_between_tables (img : Image)
  (page_tables : list StructuredTableHeadered) :
  text_candidate_boxes img (text_borders_of img page_tables)
  = Ok (gap_boxes img 1 page_tables)
  /\ (List.length (gap_boxes img 1 page_tables)
      <= S (List.length page_tables))%nat.
Proof.
  split; [|apply length_gap_boxes].
  unfold text_candidate_boxes.
  assert (Hlen : List.length (text_borders_of img page_tables)
                 = (2 * S (List.length page_tables))%nat).
  { unfold text_borders_of. cbn [app List.length].
    rewrite length_app. cbn [List.length].
    assert (Hflat : forall ts : list StructuredTableHeadered,
               List.length
                 (flat_map (fun table =>
                              let '(_, y, _, y2) := box (sth_bbox table) in
                              [y; y2]) ts)
               = (2 * List.length ts)%nat).
    { induction ts as [|t ts IHts]; [reflexivity|].
      cbn [flat_map]. rewrite length_app, IHts. unfold box. simpl. lia. }
    rewrite Hflat. lia. }
  rewrite text_pairs_loop by (rewrite Hlen; pose proof
    (Nat.Div0.mul_div_le (2 * S (List.length page_tables)) 2); lia).
  cbn [app skipn Nat.mul].
  rewrite Hlen.
  replace (2 * S (List.length page_tables) / 2)%nat
    with (S (List.length page_tables))
    by (rewrite Nat.mul_comm, Nat.div_mul; lia).
  rewrite <- Hlen at 1.
  replace (S (List.length page_tables) + (S (List.length page_tables) + 0))%nat
    with (List.length (text_borders_of img page_tables)) by lia.
  rewrite firstn_all.
  exact (f_equal Ok (pair_boxes_borders img page_tables 1)).
Qed.

(** ** The page: the loops of the table fusion *)

Lemma list_remove_In {A : Type}
  (eq_dec : forall a b : A, {a = b} + {a <> b}) (x y : A) (xs : list A) :
  In y (list_remove eq_dec x xs) -> In y xs.
Proof.
  induction xs as [|z zs IH]; [intros []|]. simpl.
  destruct (eq_dec x z); [intros Hy; right; exact Hy|].
  intros [<-|Hy]; [left; reflexivity | right; apply IH, Hy].
Qed.

Lemma length_append_if {A : Type} (xs : list A) (x : option A) :
  List.length (append_if xs x)
  = (List.length xs + match x with Some _ => 1 | None => 0 end)%nat.
Proof. destruct x; simpl; [rewrite length_app; simpl|]; lia. Qed.

Lemma In_append_if {A : Type} (xs : list A) (x : option A) (y : A) :
  In y (append_if xs x) -> In y xs \/ x = Some y.
Proof.
  destruct x as [a|]; simpl; [|intros Hy; left; exact Hy].
  intros Hy. apply in_app_or in Hy. destruct Hy as [Hy|[<-|[]]];
    [left; exact Hy | right; reflexivity].
Qed.

Section FusionLoops.
Context `{BoxOps} `{Collaborators}.

(** One region: exactly one table build is run, and at most one candidate
    is recorded, after those recorded before; it is what the build
    returned. *)
Lemma process_region_step (img : Image) (st : RegionState)
  (inf_table : InferenceTable) :
  let st' := process_region img st inf_table in
  (exists c, region_calls st' = region_calls st ++ [c]
             /\ is_detect_call c = false
             /\ region_build img inf_table c)
  /\ (exists added, detected_tables st' = detected_tables st ++ added
                    /\ (List.length added <= 1)%nat
                    /\ forall score table,
                         In (score, table) added ->
                         built_from img inf_table table).
Proof.
  cbv zeta. unfold process_region.
  destruct (table_text_fields img (OfInference inf_table) (inf_bbox inf_table)
                              (text_fields_to_match st))
    as [in_inf_table pool].
  destruct (match_cells_text_fields (tags inf_table) in_inf_table)
    as [mask_score not_matched].
  assert (Hmask : forall semi_tables,
             let st' := mask_based img inf_table not_matched mask_score pool
                                   semi_tables st in
             (exists c, region_calls st' = region_calls st ++ [c]
                        /\ is_detect_call c = false
                        /\ region_build img inf_table c)
             /\ (exists added,
                   detected_tables st' = detected_tables st ++ added
                   /\ (List.length added <= 1)%nat
                   /\ forall score table,
                        In (score, table) added ->
                        built_from img inf_table table)).
  { intros semi_tables. cbv zeta. unfold mask_based.
    cbn [region_calls detected_tables]. split.
    - eexists. split; [reflexivity|]. split; [reflexivity|].
      left. reflexivity.
    - destruct (extract_table_from_inference img inf_table not_matched
                  (shape img)) as [s|] eqn:Es; cbn [option_map append_if].
      + eexists. split; [reflexivity|]. split; [simpl; lia|].
        intros score table [E|[]]. injection E as _ <-.
        left. exists not_matched. exact Es.
      + exists []. split; [now rewrite app_nil_r|].
        split; [simpl; lia | intros score table []]. }
  destruct (label inf_table =? "Borderless")%string eqn:El; [|apply Hmask].
  apply String.eqb_eq in El.
  destruct (semi_bordered img inf_table) as [semi_border|] eqn:Esemi;
    [|apply Hmask].
  destruct (adopt_semi_bordered _ _ _ _); [|apply Hmask].
  cbn [region_calls detected_tables]. split.
  - eexists. split; [reflexivity|]. split; [reflexivity|].
    right. split; [exact El|]. exists semi_border.
    split; [exact Esemi | reflexivity].
  - destruct (semi_border_to_struct semi_border (shape img)) as [s|] eqn:Es;
      cbn [option_map append_if].
    + eexists. split; [reflexivity|]. split; [simpl; lia|].
      intros score table [E|[]]. injection E as _ <-.
      right. exists semi_border. split; assumption.
    + exists []. split; [now rewrite app_nil_r|].
      split; [simpl; lia | intros score table []].
Qed.

Lemma region_loop_no_detect (img : Image)
  (inference_tables : list InferenceTable) :
  forall st,
    filter is_detect_call
           (region_calls (fold_left (process_region img) inference_tables st))
    = filter is_detect_call (region_calls st).
Proof.
  induction inference_tables as [|t ts IH]; intros st; [reflexivity|].
  cbn [fold_left]. rewrite IH.
  destruct (process_region_step img st t) as ((c & Hc & Hnot & _) & _).
  rewrite Hc, filter_app. cbn [filter]. rewrite Hnot. apply app_nil_r.
Qed.

(** The loop over the detector's regions runs exactly one table build per
    region, in the order of the regions: the mask-based build of the region,
    or the cell-based construction on the semi-bordered reconstruction of a
    Borderless region; it never calls the classical bordered detector.  The
    candidates recorded before stay, in their order; at most one candidate
    per region is recorded after them, and each is a table that a build of
    one of the regions returned. *)
Theorem region_loop_one_build_per_region (img : Image)
  (inference_tables : list InferenceTable) (st : RegionState) :
  let st' := fold_left (process_region img) inference_tables st in
  exists builds added,
    region_calls st' = region_calls st ++ builds
    /\ Forall2 (region_build img) inference_tables builds
    /\ filter is_detect_call builds = []
    /\ detected_tables st' = detected_tables st ++ added
    /\ (List.length added <= List.length inference_tables)%nat
    /\ (forall score table,
          In (score, table) added ->
          exists inf_table,
            In inf_table inference_tables /\ built_from img inf_table table).
Proof.
  cbv zeta. revert st.
  induction inference_tables as [|t ts IH]; intros st.
  - exists [], []. cbn [fold_left]. rewrite !app_nil_r.
    repeat split; try reflexivity; [constructor | intros score table []].
  - cbn [fold_left].
    destruct (process_region_step img st t)
      as ((c & Hc & Hnot & Hbuild) & (added1 & Hadd & Hlen & Hfrom)).
    destruct (IH (process_region img st t))
      as (builds & added2 & IH1 & IH2 & IH3 & IH4 & IH5 & IH6).
    exists (c :: builds), (added1 ++ added2).
    rewrite IH1, IH4, Hc, Hadd, <- !app_assoc.
    split; [reflexivity|].
    split; [constructor; assumption|].
    split; [cbn [filter]; rewrite Hnot; exact IH3|].
    split; [reflexivity|].
    split; [rewrite length_app; cbn [List.length]; lia|].
    intros score table Hin. apply in_app_or in Hin.
    destruct Hin as [Hin|Hin].
    + exists t. split; [left; reflexivity | exact (Hfrom _ _ Hin)].
    + destruct (IH6 _ _ Hin) as (inf_table & Hmem & Hb).
      exists inf_table. split; [right; exact Hmem | exact Hb].
Qed.

(** One bordered table: the pending list only loses elements, at most one
    table is put on the page, and none is lost when the reconstruction of
    the bordered table exists. *)
Lemma process_bordered_step (img : Image) (st : BorderedState)
  (bordered_table : Table) :
  let st' := process_bordered img st bordered_table in
  (forall c, In c (pending st') -> In c (pending st))
  /\ (forall t, In t (page_tables st') ->
                In t (page_tables st) \/ In t (map snd (pending st))
                \/ semi_border_to_struct bordered_table (shape img) = Some t)
  /\ (List.length (page_tables st') + List.length (pending st')
      <= List.length (page_tables st) + List.length (pending st) + 1)%nat
  /\ (semi_border_to_struct bordered_table (shape img) <> None ->
      (List.length (page_tables st) + List.length (pending st)
       <= List.length (page_tables st') + List.length (pending st'))%nat)
  /\ (exists added, bordered_calls st' = bordered_calls st ++ added
                    /\ filter is_detect_call added = []).
Proof.
  cbv zeta. unfold process_bordered.
  destruct (find_candidate bordered_table (pending st))
    as [[score inf_table]|] eqn:Ef.
  - pose proof Ef as Hin. apply find_some in Hin. destruct Hin as [Hin _].
    destruct (list_remove_found candidate_eq_dec _ _ _ Ef)
      as (before & after & Hsplit & _ & Hrem).
    assert (Hlen : List.length (pending st)
                   = S (List.length
                          (list_remove candidate_eq_dec (score, inf_table)
                                       (pending st)))).
    { rewrite Hrem, Hsplit, !length_app. simpl. lia. }
    destruct (table_text_fields img (OfStructured inf_table)
                (st_bbox inf_table) (bordered_pool st)) as [in_table pool].
    destruct (adopt_bordered _ _ _ _);
      cbn [pending page_tables bordered_calls].
    + split; [intros c; apply list_remove_In|].
      split.
      { intros t Ht. apply In_append_if in Ht.
        destruct Ht as [Ht|Ht]; [left; exact Ht | right; right; exact Ht]. }
      rewrite length_append_if.
      split; [destruct (semi_border_to_struct _ _); lia|].
      split; [|eexists; split; reflexivity].
      intros Hsome. destruct (semi_border_to_struct _ _); [lia | contradiction].
    + split; [intros c; apply list_remove_In|].
      split.
      { intros t Ht. apply in_app_or in Ht.
        destruct Ht as [Ht|[<-|[]]]; [left; exact Ht|].
        right. left. apply (in_map snd _ _ Hin). }
      rewrite length_app. cbn [List.length].
      split; [lia|].
      split; [intros _; lia|].
      exists []. split; [now rewrite app_nil_r | reflexivity].
  - destruct (match_table_text (OfBordered bordered_table) (bordered_pool st))
      as [in_table pool].
    cbn [pending page_tables bordered_calls].
    split; [intros c Hc; exact Hc|].
    split.
    { intros t Ht. apply In_append_if in Ht.
      destruct Ht as [Ht|Ht]; [left; exact Ht | right; right; exact Ht]. }
    rewrite length_append_if.
    split; [destruct (semi_border_to_struct _ _); lia|].
    split; [|eexists; split; reflexivity].
    intros Hsome. destruct (semi_border_to_struct _ _); [lia | contradiction].
Qed.

Lemma bordered_loop (img : Image) (image_tables : list Table) :
  forall st,
    let st' := fold_left (process_bordered img) image_tables st in
    (forall c, In c (pending st') -> In c (pending st))
    /\ (forall t, In t (page_tables st') ->
                  In t (page_tables st) \/ In t (map snd (pending st))
                  \/ exists b, In b image_tables
                               /\ semi_border_to_struct b (shape img) = Some t)
    /\ (List.length (page_tables st') + List.length (pending st')
        <= List.length (page_tables st) + List.length (pending st)
           + List.length image_tables)%nat
    /\ ((forall b, In b image_tables ->
                   semi_border_to_struct b (shape img) <> None) ->
        (List.length (page_tables st) + List.length (pending st)
         <= List.length (page_tables st') + List.length (pending st'))%nat)
    /\ (exists added, bordered_calls st' = bordered_calls st ++ added
                      /\ filter is_detect_call added = []).
Proof.
  induction image_tables as [|b bs IH]; intros st; cbv zeta.
  - cbn [fold_left List.length]. split; [tauto|]. split; [tauto|].
    split; [lia|]. split; [intros _; lia|].
    exists []. split; [now rewrite app_nil_r | reflexivity].
  - cbn [fold_left].
    destruct (process_bordered_step img st b)
      as (S1 & S2 & S3 & S4 & (a1 & Ha1 & Hf1)).
    destruct (IH (process_bordered img st b))
      as (I1 & I2 & I3 & I4 & (a2 & Ha2 & Hf2)).
    split; [intros c Hc; apply S1, I1, Hc|].
    split.
    { intros t Ht. destruct (I2 t Ht) as [Hp|[Hp|(b' & Hb' & Hs)]].
      - destruct (S2 t Hp) as [Hq|[Hq|Hq]];
          [left; exact Hq | right; left; exact Hq|].
        right. right. exists b. split; [left; reflexivity | exact Hq].
      - right. left. apply in_map_iff in Hp.
        destruct Hp as (c & <- & Hc). apply in_map, S1, Hc.
      - right. right. exists b'. split; [right; exact Hb' | exact Hs]. }
    cbn [List.length].
    split; [lia|].
    split.
    { intros Hall.
      assert (Hb : semi_border_to_struct b (shape img) <> None)
        by (apply Hall; left; reflexivity).
      assert (Hbs : forall b', In b' bs ->
                               semi_border_to_struct b' (shape img) <> None)
        by (intros b' Hb'; apply Hall; right; exact Hb').
      specialize (S4 Hb). specialize (I4 Hbs). lia. }
    exists (a1 ++ a2). split.
    + rewrite Ha2, Ha1, app_assoc. reflexivity.
    + rewrite filter_app, Hf1, Hf2. reflexivity.
Qed.

(** The reconciliation with the classical detector: every table it puts on
    the page is a candidate or the reconstruction of a bordered table; there
    are at most as many as candidates and bordered tables together; no
    candidate is lost when every bordered table has a reconstruction (a
    candidate whose bordered table is adopted and has none disappears); and
    with no region labelled Bordered and no candidate scored below 0.2 times
    its cell count, the tables are the candidates, in order. *)
Theorem reconcile_bordered_tables (img : Image) (text_fields : list TextField)
  (has_bordered : bool) (detected : list (Z * StructuredTable)) :
  let result := fst (reconcile_bordered img text_fields has_bordered detected) in
  (forall t, In t result ->
             In t (map snd detected)
             \/ exists b, In b (detect_tables_on_page img)
                          /\ semi_border_to_struct b (shape img) = Some t)
  /\ (List.length result
      <= List.length detected + List.length (detect_tables_on_page img))%nat
  /\ ((forall b, In b (detect_tables_on_page img) ->
                 semi_border_to_struct b (shape img) <> None) ->
      (List.length detected <= List.length result)%nat)
  /\ (has_bordered || existsb low_score detected = false ->
      result = map snd detected).
Proof.
  cbv zeta. unfold reconcile_bordered.
  destruct (has_bordered || existsb low_score detected).
  2:{ cbn [fst]. split; [intros t Ht; left; exact Ht|].
      rewrite length_map. split; [lia|]. split; [intros _; lia | reflexivity]. }
  destruct (detect_tables_on_page img) as [|b bs] eqn:Ed.
  { cbn [fst]. split; [intros t Ht; left; exact Ht|].
    rewrite length_map. split; [simpl; lia|].
    split; [intros _; lia | discriminate]. }
  cbn [fst].
  destruct (bordered_loop img (b :: bs)
              {| page_tables := []; pending := detected;
                 bordered_pool := text_fields;
                 bordered_calls := [CallDetectTablesOnPage] |})
    as (L1 & L2 & L3 & L4 & _).
  cbn [page_tables pending List.length] in L1, L2, L3, L4.
  split.
  { intros t Ht. apply in_app_or in Ht. destruct Ht as [Ht|Ht].
    - destruct (L2 t Ht) as [[]|[Hd|Hb]]; [left; exact Hd | right; exact Hb].
    - left. apply in_map_iff in Ht. destruct Ht as (c & <- & Hc).
      apply in_map, L1, Hc. }
  rewrite length_app, length_map. cbn [List.length].
  split; [lia|]. split; [|discriminate].
  intros Hall. specialize (L4 Hall). lia.
Qed.

Lemma reconcile_bordered_calls (img : Image) (text_fields : list TextField)
  (has_bordered : bool) (detected : list (Z * StructuredTable)) :
  filter is_detect_call
         (snd (reconcile_bordered img text_fields has_bordered detected))
  = if has_bordered || existsb low_score detected
    then [CallDetectTablesOnPage] else [].
Proof.
  unfold reconcile_bordered.
  destruct (has_bordered || existsb low_score detected); [|reflexivity].
  destruct (detect_tables_on_page img) as [|b bs]; [reflexivity|].
  cbn [snd].
  destruct (bordered_loop img (b :: bs)
              {| page_tables := []; pending := detected;
                 bordered_pool := text_fields;
                 bordered_calls := [CallDetectTablesOnPage] |})
    as (_ & _ & _ & _ & (added & Ha & Hf)).
  cbn [bordered_calls] in Ha. rewrite Ha.
  cbn [app filter is_detect_call]. rewrite Hf. reflexivity.
Qed.

Lemma extract_text_blocks_calls (img : Image) (boxes : list BorderBox) :
  forall texts calls,
    snd (fold_left
           (fun '(page_text, calls) b =>
              let text := te_extract_sparse img (top_left_x b) (top_left_y b)
                                            (width b) (height b) in
              ((if (text =? "")%string then page_text
                else page_text ++ [{| bbox := b; text := text |}]),
               calls ++ [CallExtractSparseText b]))
           boxes (texts, calls))
    = calls ++ map CallExtractSparseText boxes.
Proof.
  induction boxes as [|b bs IH]; intros texts calls.
  - simpl. now rewrite app_nil_r.
  - cbn [fold_left map]. rewrite IH, <- app_assoc. reflexivity.
Qed.

Lemma sparse_calls_no_detect (boxes : list BorderBox) :
  filter is_detect_call (map CallExtractSparseText boxes) = [].
Proof. induction boxes as [|b bs IH]; [reflexivity | exact IH]. Qed.

(** The classical bordered detector is run at most once per page, and it is
    run exactly when a region is labelled Bordered or a candidate of the
    region loop has a score below 0.2 times its number of cells. *)
Theorem process_page_detector_calls (img : Image) (num : Z)
  (text_fields : list TextField) :
  let regions :=
    fold_left (process_region img) (inference_image img)
              {| text_fields_to_match := text_fields;
                 semi_bordered_tables := [];
                 detected_tables := [];
                 region_calls := [] |} in
  let gate :=
    existsb (fun i_tab => (label i_tab =? "Bordered")%string)
            (inference_image img)
    || existsb low_score (detected_tables regions) in
  exists page_dict calls,
    process_page img num text_fields = Ok (page_dict, calls)
    /\ filter is_detect_call calls
       = if gate then [CallDetectTablesOnPage] else [].
Proof.
  cbv zeta. unfold process_page.
  destruct (inference_image img) as [|t ts] eqn:Ei.
  { eexists. eexists. split; reflexivity. }
  set (regions := fold_left (process_region img) (t :: ts) _).
  pose proof (reconcile_bordered_calls img text_fields
                (existsb (fun i_tab => (label i_tab =? "Bordered")%string)
                         (t :: ts))
                (detected_tables regions)) as Hrec.
  destruct (reconcile_bordered _ _ _ _) as [page_tables calls].
  cbn [snd] in Hrec.
  match goal with
  | |- context [text_candidate_boxes img ?tb] =>
      destruct (text_candidate_boxes_loop img tb (List.length tb / 2) 0 [])
        as [boxes Hboxes];
      [pose proof (Nat.Div0.mul_div_le (List.length tb) 2); lia|];
      unfold text_candidate_boxes; rewrite Hboxes
  end.
  cbn [bind].
  pose proof (extract_text_blocks_calls img boxes [] []) as Htext.
  unfold extract_text_blocks.
  destruct (fold_left _ boxes ([], [])) as [texts text_calls].
  cbn [snd app] in Htext. subst text_calls.
  eexists. eexists. split; [reflexivity|].
  rewrite !filter_app, Hrec.
  pose proof (region_loop_no_detect img (t :: ts)
                {| text_fields_to_match := text_fields;
                   semi_bordered_tables := [];
                   detected_tables := [];
                   region_calls := [] |}) as Hreg.
  fold regions in Hreg. cbn [region_calls filter] in Hreg. rewrite Hreg.
  rewrite sparse_calls_no_detect, app_nil_r. reflexivity.
Qed.

End FusionLoops.

(** An instance of the reconciliation: the candidate of the stand-in page is
    not lost. *)
Lemma reconcile_bordered_tables_witness :
  (1 <= List.length
          (fst (@reconcile_bordered spec_box_ops demo_collaborators scan_image
                  [] true [(10%Z, demo_candidate)])))%nat.
Proof.
  destruct (@reconcile_bordered_tables spec_box_ops demo_collaborators
              scan_image [] true [(10, demo_candidate)])
    as (_ & _ & Hkeep & _).
  apply Hkeep. intros b _. discriminate.
Defined.

(** ** The run over the pages *)

Section RunFacts.
Context `{BoxOps} `{Collaborators}.
Variable PopplerPage : Type.
Variable PopplerTextField : Type.
Variable poppler_height : PopplerPage -> Q.
Variable poppler_text_fields : PopplerPage -> list PopplerTextField.
Variable poppler_text_field_to_text_field : PopplerTextField -> Q -> TextField.
Variable imread : string -> option Image.
Variable py_int : string -> option Z.

Local Abbreviation page_file :=
  (process_page_file PopplerPage PopplerTextField poppler_height
                     poppler_text_fields poppler_text_field_to_text_field
                     imread py_int).
Local Abbreviation one :=
  (process_page_of PopplerPage PopplerTextField poppler_height
                   poppler_text_fields poppler_text_field_to_text_field
                   imread py_int).
Local Abbreviation loop :=
  (process_pages_loop PopplerPage PopplerTextField poppler_height
                      poppler_text_fields poppler_text_field_to_text_field
                      imread py_int).
Local Abbreviation run :=
  (process_pages PopplerPage PopplerTextField poppler_height
                 poppler_text_fields poppler_text_field_to_text_field
                 imread py_int).

(** [process_page] raises only in its first lines, and there in this order:
    [ValueError] when [int] rejects the stem of the file name,
    [AttributeError] when the image could not be read, [ZeroDivisionError]
    when the height of the text layer's page is zero.  On every other input
    it returns a serialised page that carries the number read from the file
    name and the box of the image. *)
Theorem process_page_raises_only_in_head (name : string)
  (poppler_page : PopplerPage) :
  match py_int (stem name), imread name with
  | None, _ => page_file name poppler_page = inl (ValueError (stem name))
  | Some _, None => page_file name poppler_page = inl AttributeError
  | Some num, Some img =>
      if Qeq_bool (poppler_height poppler_page) 0
      then page_file name poppler_page = inl (PageError ZeroDivisionError)
      else exists blocks calls,
          page_file name poppler_page
          = inr ({| d_page_num := num;
                    d_page_bbox := {| d_left := 0; d_top := 0;
                                      d_height := shape0 img;
                                      d_width := shape1 img |};
                    d_blocks := blocks |},
                 calls)
  end.
Proof.
  unfold process_page_file.
  destruct (py_int (stem name)) as [num|]; [|reflexivity].
  destruct (imread name) as [img|]; [|reflexivity].
  unfold scale_poppler_result, truediv_number.
  destruct (Qeq_bool (poppler_height poppler_page) 0); [reflexivity|].
  cbn [bind].
  match goal with
  | |- context [process_page img num ?tf] =>
      destruct (process_page_returns img num tf) as (blocks & calls & E)
  end.
  rewrite E. exists blocks, calls. reflexivity.
Qed.

Lemma process_pages_loop_app (poppler_pages : list (string * PopplerPage))
  (names : list string) :
  forall pages,
    loop poppler_pages names pages
    = match loop poppler_pages names [] with
      | inl e => inl e
      | inr new_pages => inr (pages ++ new_pages)
      end.
Proof.
  induction names as [|name rest IH]; intros pages.
  - simpl. now rewrite app_nil_r.
  - cbn [process_pages_loop].
    destruct (one poppler_pages name) as [e|page]; [reflexivity|].
    rewrite (IH (pages ++ [page])), (IH ([] ++ [page])).
    destruct (loop poppler_pages rest []) as [e|new_pages];
      [reflexivity|].
    now rewrite <- app_assoc.
Qed.

(** The run returns exactly when every page does, with the pages in the
    order of the names. *)
Lemma process_pages_loop_inr (poppler_pages : list (string * PopplerPage))
  (names : list string) :
  forall pages,
    loop poppler_pages names [] = inr pages
    <-> Forall2 (fun name page => one poppler_pages name = inr page)
                names pages.
Proof.
  induction names as [|name rest IH]; intros pages.
  - cbn [process_pages_loop]. split.
    + intros E. injection E as <-. constructor.
    + intros Hall. inversion Hall. reflexivity.
  - cbn [process_pages_loop app].
    destruct (one poppler_pages name) as [e|page] eqn:E1.
    + split; [discriminate|].
      intros Hall. inversion Hall; subst. congruence.
    + rewrite (process_pages_loop_app poppler_pages rest).
      destruct (loop poppler_pages rest []) as [e|new_pages] eqn:E2.
      * split; [discriminate|].
        intros Hall. inversion Hall as [|? page' ? pages' Hp Hrest]; subst.
        apply IH in Hrest. discriminate.
      * split.
        -- intros E. injection E as <-. cbn [app].
           constructor; [exact E1 | apply IH; reflexivity].
        -- intros Hall. inversion Hall as [|? page' ? pages' Hp Hrest]; subst.
           apply IH in Hrest. injection Hrest as <-.
           rewrite E1 in Hp. injection Hp as <-. reflexivity.
Qed.

(** The run raises what the first failing page raises. *)
Lemma process_pages_loop_inl (poppler_pages : list (string * PopplerPage))
  (name : string) (rest : list string) (e : run_error) :
  one poppler_pages name = inl e ->
  forall done,
    Forall (fun n => exists page, one poppler_pages n = inr page) done ->
    loop poppler_pages (done ++ name :: rest) [] = inl e.
Proof.
  intros Hfail. induction done as [|n ns IH]; intros Hdone.
  - cbn [app process_pages_loop]. now rewrite Hfail.
  - inversion Hdone as [|? ? [page Hpage] Hrest]; subst.
    cbn [app process_pages_loop]. rewrite Hpage.
    rewrite (process_pages_loop_app poppler_pages (ns ++ name :: rest)).
    now rewrite (IH Hrest).
Qed.

(** A run is all or nothing.  [process_pages] returns exactly when every
    page returns, and then it returns the pages in the order of the names,
    one per name.  When a page fails after pages that all returned, the run
    raises what that page raises and returns no page, not even those already
    processed.  A page whose file-name stem (the name up to its first dot) is
    no key of [poppler_pages] fails with [KeyError] of that stem, before its
    image is read. *)
Theorem process_pages_all_or_nothing
  (poppler_pages : list (string * PopplerPage)) (names : list string) :
  (forall pages,
      run names poppler_pages = inr pages
      <-> Forall2 (fun name page => one poppler_pages name = inr page)
                  names pages)
  /\ (forall done name rest e,
        names = done ++ name :: rest ->
        Forall (fun n => exists page, one poppler_pages n = inr page) done ->
        one poppler_pages name = inl e ->
        run names poppler_pages = inl e)
  /\ (forall name,
        dict_get poppler_pages (stem name) = None ->
        one poppler_pages name = inl (KeyError (stem name))).
Proof.
  unfold process_pages. split; [|split].
  - apply process_pages_loop_inr.
  - intros done name rest e -> Hdone Hfail.
    apply process_pages_loop_inl; assumption.
  - intros name Hmiss. unfold process_page_of. now rewrite Hmiss.
Qed.

End RunFacts.

(** A run over the images [1.png] and [2.png] with a text layer for page 1
    only: page 1 alone is a run that returns its page; with page 2 after it,
    the run raises [KeyError] for [2] and returns nothing. *)
Lemma process_pages_all_or_nothing_witness :
  @process_pages spec_box_ops demo_collaborators Q TextField demo_height
                 demo_text_fields demo_convert demo_imread demo_int
                 ["1.png"] demo_poppler_pages
  = inr [{| d_page_num := 1;
            d_page_bbox := {| d_left := 0; d_top := 0;
                              d_height := 200; d_width := 100 |};
            d_blocks := [] |}]
  /\ @process_pages spec_box_ops demo_collaborators Q TextField demo_height
                    demo_text_fields demo_convert demo_imread demo_int
                    ["1.png"; "2.png"] demo_poppler_pages
     = inl (KeyError "2").
Proof.
  split.
  - destruct (@process_pages_all_or_nothing spec_box_ops demo_collaborators
                Q TextField demo_height demo_text_fields demo_convert
                demo_imread demo_int demo_poppler_pages ["1.png"])
      as (Hreturns & _).
    apply Hreturns. constructor; [reflexivity | constructor].
  - destruct (@process_pages_all_or_nothing spec_box_ops demo_collaborators
                Q TextField demo_height demo_text_fields demo_convert
                demo_imread demo_int demo_poppler_pages ["1.png"; "2.png"])
      as (_ & Hfails & _).
    apply (Hfails ["1.png"] "2.png" []); [reflexivity | | reflexivity].
    constructor; [eexists; reflexivity | constructor].
Defined.

(** ** The mask-based build: the cells handed to the table construction *)

Lemma sorted_by_fixed {A : Type} (leb : A -> A -> bool) (xs : list A) :
  Sorted (le_of leb) xs -> sorted leb xs = xs.
Proof.
  induction xs as [|x xs IH]; intros Hs; [reflexivity|].
  inversion Hs as [|? ? Hs' Hhd]; subst. simpl. rewrite (IH Hs').
  destruct xs as [|y ys]; [reflexivity|]. simpl.
  inversion Hhd as [|? ? Hxy]; subst. unfold le_of in Hxy. now rewrite Hxy.
Qed.

Section MaskBasedBuild.
Context `{BoxOps} `{Collaborators}.

Lemma merge_closest_unfold (text_fields : list TextField) :
  merge_closest_text_fields text_fields
  = match sorted top_left_leb text_fields with
    | [] => []
    | f :: rest => sweep_spec f (f :: rest)
    end.
Proof.
  unfold merge_closest_text_fields.
  destruct (sorted top_left_leb text_fields) as [|f rest]; [reflexivity|].
  cbn [fold_left sweep_spec]. unfold merge_closest_step at 2.
  destruct (close_to f f).
  - apply (merge_closest_loop rest (join_fields f f) []).
  - apply (merge_closest_loop rest f [f]).
Qed.

Lemma merge_closest_sorted_twice (text_fields : list TextField) :
  merge_closest_text_fields (sorted top_left_leb text_fields)
  = merge_closest_text_fields text_fields.
Proof.
  rewrite !merge_closest_unfold, sorted_by_fixed; [reflexivity|].
  apply sorted_by_Sorted, top_left_leb_total.
Qed.

(** [extract_table_from_inference] hands to the table construction the
    proposal cells, each with the text boxes it came with, followed by one
    cell per field of [merge_closest_text_fields(not_matched_text)] holding
    just that field: no text box is dropped or changed, and there are at most
    [len(tags) + len(not_matched_text) + 1] cells. *)
Theorem extract_table_from_inference_cells (img : Image)
  (inf_table : InferenceTable) (not_matched_text : list TextField)
  (image_shape : Z * Z) :
  exists cells,
    extract_table_from_inference img inf_table not_matched_text image_shape
    = construct_table_from_cells (inf_bbox inf_table) cells image_shape
    /\ map text_boxes cells
       = map text_boxes (tags inf_table)
         ++ map (fun f => [f]) (merge_closest_text_fields not_matched_text)
    /\ (List.length cells
        <= List.length (tags inf_table) + S (List.length not_matched_text))%nat.
Proof.
  unfold extract_table_from_inference.
  rewrite merge_closest_sorted_twice.
  eexists. split; [reflexivity|].
  assert (Hshrink : forall c, text_boxes (shrink_cell img c) = text_boxes c).
  { intros c. unfold shrink_cell.
    destruct (te_extract_region _ _ _ _ _); reflexivity. }
  assert (Hrefit : forall c, text_boxes (refit_cell c) = text_boxes c).
  { intros c. unfold refit_cell.
    destruct (text_boxes c) as [|tb [|tb2 tbs]] eqn:Et;
      [exact Et | reflexivity | reflexivity]. }
  split.
  - rewrite !map_map, map_app, !map_map. f_equal.
    + apply map_ext. intros c. now rewrite Hshrink, Hrefit.
    + apply map_ext. intros f. now rewrite Hshrink.
  - rewrite length_map, length_app, !length_map.
    apply Nat.add_le_mono_l.
    rewrite merge_closest_unfold.
    pose proof (length_sorted top_left_leb not_matched_text) as Hlen.
    destruct (sorted top_left_leb not_matched_text) as [|f rest];
      [simpl; lia|].
    pose proof (sweep_spec_length (f :: rest) f). lia.
Qed.

End MaskBasedBuild.
